(** * Block segmentation, routing and filtering of timestamped log files

    A shallow embedding of the two tools of [logFileAnalysis]:
    - [logSplitter/splitLog.py], function [extract_log_blocks] (routing of
      blocks to named destination files, with a per-log "unmatched" file);
    - [removeLines/RemoveLines.py], function [remove_lines_from_files]
      (removal of every block containing a line that the joined removal regex
      [(p1)|(p2)|...] matches).

    Lines are [string]s, exactly as yielded by Python's text-file iteration
    (each one still carries its trailing newline).  Regular-expression search
    for a user pattern, and the validity check performed by [re.compile], are
    left abstract ([search] and [regex_ok]); the fixed timestamp regex
    [^\[\d{2}:\d{2}:\d{2},\d{3}\]] is written out.  Files, console output
    and exceptions are modelled by a small state-and-exception monad over a
    [world]. *)

From Stdlib Require Import String Ascii List Bool Arith Lia ZArith.
Import ListNotations.
Open Scope string_scope.

(* ------------------------------------------------------------------ *)
(** ** The world: output files, unwritable paths, observable events *)

(** Console messages the scripts print, by kind. *)
Inductive report :=
  | RepNoPatterns                          (* "No patterns defined ..." *)
  | RepConfigNotFound
  | RepConfigBadJson
  | RepConfigError
  | RepConfigUnexpected
  | RepInvalidRegex (pattern dest : string)
  | RepNoFiles
  | RepProcessing (file : string)
  | RepFinished (file : string) (c1 c2 c3 : nat)
  | RepError (file : string)               (* "Error processing file ..." *)
  | RepPatternFileNotFound
  | RepCancelled
  | RepSummary.

(** Observable effects, in the order in which they happen. *)
Inductive event :=
  | EvMakeDir (dir : string)
  | EvListDir
  | EvOpenSrc (file : string)                 (* open(input_filepath, 'r') *)
  | EvAppend (path : string) (ls : list string) (* with open(path, 'a'): write *)
  | EvTruncate (path : string)                (* open(path, 'w') *)
  | EvWrite (path : string) (l : string)      (* outfile.write(line) *)
  | EvPrint (r : report).

Record world := mk_world {
  sinks : list (string * list string);  (* contents of the output files *)
  ro : list string;                     (* paths that cannot be opened for writing *)
  events : list event
}.

(** Python exceptions that matter here. [ExcExit] is [SystemExit], which
    [except Exception] does not catch. *)
Inductive exn :=
  | ExcOS (path : string)      (* OSError from open() *)
  | ExcRead (file : string)    (* an error raised while iterating the input *)
  | ExcRegex (pattern : string)(* re.error escaping re.compile *)
  | ExcExit (code : nat).

Inductive res (A : Type) :=
  | Ok (a : A)
  | Exc (e : exn).
Arguments Ok {A} a.
Arguments Exc {A} e.

Definition M (A : Type) := world -> res A * world.

Definition ret {A} (a : A) : M A := fun w => (Ok a, w).

Definition bind {A B} (m : M A) (k : A -> M B) : M B :=
  fun w => match m w with
           | (Ok a, w') => k a w'
           | (Exc e, w') => (Exc e, w')
           end.

Definition raise {A} (e : exn) : M A := fun w => (Exc e, w).

(** [try: m  except Exception: h] *)
Definition try_except {A} (m : M A) (h : exn -> M A) : M A :=
  fun w => match m w with
           | (Ok a, w') => (Ok a, w')
           | (Exc (ExcExit c), w') => (Exc (ExcExit c), w')
           | (Exc e, w') => h e w'
           end.

Notation "x <- m ;; k" := (bind m (fun x => k))
  (at level 61, m at next level, right associativity).
Notation "m ;; k" := (bind m (fun _ : unit => k))
  (at level 61, right associativity).

Definition emit (ev : event) : M unit :=
  fun w => (Ok tt, mk_world (sinks w) (ro w) (events w ++ [ev])).

Definition print (r : report) : M unit := emit (EvPrint r).

Fixpoint sink_get (p : string) (s : list (string * list string)) : list string :=
  match s with
  | [] => []
  | (q, ls) :: s' => if String.eqb p q then ls else sink_get p s'
  end.

Fixpoint sink_set (p : string) (ls : list string) (s : list (string * list string))
  : list (string * list string) :=
  match s with
  | [] => [(p, ls)]
  | (q, ls') :: s' => if String.eqb p q then (q, ls) :: s' else (q, ls') :: sink_set p ls s'
  end.

Definition writable (p : string) (w : world) : bool :=
  negb (existsb (String.eqb p) (ro w)).

(** [with open(p, 'a') as outfile: for l in ls: outfile.write(l)]:
    the file is created if absent; opening an unwritable path raises. *)
Definition append (p : string) (ls : list string) : M unit :=
  fun w => if writable p w
           then (Ok tt, mk_world (sink_set p (sink_get p (sinks w) ++ ls) (sinks w))
                                 (ro w) (events w ++ [EvAppend p ls]))
           else (Exc (ExcOS p), w).

(** [open(p, 'w')]: truncates, or raises. *)
Definition truncate (p : string) : M unit :=
  fun w => if writable p w
           then (Ok tt, mk_world (sink_set p [] (sinks w)) (ro w) (events w ++ [EvTruncate p]))
           else (Exc (ExcOS p), w).

(** [outfile.write(l)] on an already open handle. *)
Definition write_line (p : string) (l : string) : M unit :=
  fun w => (Ok tt, mk_world (sink_set p (sink_get p (sinks w) ++ [l]) (sinks w))
                            (ro w) (events w ++ [EvWrite p l])).

Fixpoint iterM {A} (f : A -> M unit) (l : list A) : M unit :=
  match l with
  | [] => ret tt
  | x :: l' => f x ;; iterM f l'
  end.

(** [os.path.join(d, name)] for a relative name. *)
Definition join (d name : string) : string := d ++ "/" ++ name.

(* ------------------------------------------------------------------ *)
(** ** The boundary predicate: [re.compile(r"^\[\d{2}:\d{2}:\d{2},\d{3}\]").search] *)

Definition is_digit (c : ascii) : bool :=
  let n := nat_of_ascii c in ((48 <=? n) && (n <=? 57))%nat.

(** [Some c] is the literal character [c], [None] is [\d]. *)
Definition timestamp_shape : list (option ascii) :=
  [Some "["%char; None; None; Some ":"%char; None; None; Some ":"%char; None; None;
   Some ","%char; None; None; None; Some "]"%char].

Fixpoint match_prefix (sh : list (option ascii)) (s : string) : bool :=
  match sh, s with
  | [], _ => true
  | _ :: _, EmptyString => false
  | Some c :: sh', String c' s' => Ascii.eqb c c' && match_prefix sh' s'
  | None :: sh', String c' s' => is_digit c' && match_prefix sh' s'
  end.

(** Anchored with [^] and without [re.MULTILINE]: a match at the start only. *)
Definition timestamp_regex_search (line : string) : bool :=
  match_prefix timestamp_shape line.

(* ------------------------------------------------------------------ *)
(** ** The block loop shared by both tools

    Both scripts run the same loop over the lines of an input file:
<<
    for line_num, line in enumerate(infile, 1):
        if timestamp_regex.search(line):
            if block_buffer: <process previous block>
            block_buffer = [line]; <reset flags>
        else:
            block_buffer.append(line)
        <update flags from line>
    if block_buffer: <process last block>
>>
    [F] is the type of the per-block flags, [f0] their reset value, [scan]
    their update from one line; [process] is the block processing, which
    threads the per-file counters [C]. The input is the list of lines the
    iteration yields, followed by a read error when [fails] is true. *)

Section BlockLoop.
Context {F C : Type}.
Variable f0 : F.
Variable scan : F -> string -> F.
Variable process : list string -> F -> C -> M C.

Definition flush (buf : list string) (fl : F) (c : C) : M C :=
  match buf with
  | [] => ret c
  | _ :: _ => process buf fl c
  end.

Fixpoint block_loop (file : string) (fails : bool) (buf : list string) (fl : F) (c : C)
  (ls : list string) : M C :=
  match ls with
  | [] => if fails then raise (ExcRead file) else flush buf fl c
  | l :: rest =>
      if timestamp_regex_search l
      then c' <- flush buf fl c ;; block_loop file fails [l] (scan f0 l) c' rest
      else block_loop file fails (buf ++ [l]) (scan fl l) c rest
  end.

(** Flags of a whole block: the fold of [scan] over its lines. *)
Definition classify (b : list string) : F := fold_left scan b f0.

Fixpoint process_all (bs : list (list string)) (c : C) : M C :=
  match bs with
  | [] => ret c
  | b :: bs' => c' <- process b (classify b) c ;; process_all bs' c'
  end.

End BlockLoop.

(** The segmenter on its own: the blocks the loop above closes, in order. *)
Fixpoint segment_from (buf : list string) (ls : list string) : list (list string) :=
  match ls with
  | [] => match buf with [] => [] | _ :: _ => [buf] end
  | l :: rest =>
      if timestamp_regex_search l
      then match buf with [] => [] | _ :: _ => [buf] end ++ segment_from [l] rest
      else segment_from (buf ++ [l]) rest
  end.

Definition segment (ls : list string) : list (list string) := segment_from [] ls.

Definition is_nil {A} (l : list A) : bool :=
  match l with [] => true | _ :: _ => false end.

(** An input file as [open] and iteration see it: [None] when [open] raises,
    otherwise the lines yielded and whether the iteration then raises
    (e.g. a [UnicodeDecodeError]) instead of ending normally. *)
Definition source := option (list string * bool).

(** [open(input_filepath, 'r', encoding='utf-8')] followed by reading. *)
Definition open_source (name : string) (src : source) : M (list string * bool) :=
  emit (EvOpenSrc name) ;;
  match src with
  | None => raise (ExcOS name)
  | Some x => ret x
  end.

(** A directory entry: name, [os.path.isfile], contents. *)
Definition entry := (string * bool * source)%type.

(* ------------------------------------------------------------------ *)
(** ** splitLog.py: configuration *)

(** A JSON value as returned by [json.load]; objects have distinct keys. *)
Set Warnings "-register-all".
Inductive json :=
  | JNull
  | JBool (b : bool)
  | JNum (n : Z)
  | JStr (s : string)
  | JArr (l : list json)
  | JObj (kv : list (string * json)).

Fixpoint lookup (k : string) (kv : list (string * json)) : option json :=
  match kv with
  | [] => None
  | (k', v) :: kv' => if String.eqb k k' then Some v else lookup k kv'
  end.

(** The [ValueError]s raised by [read_json_config], and the [AttributeError]
    of [config.items()] on a non-object (the "unexpected error" branch). *)
Inductive cfg_err :=
  | ErrNotObject (dest : string)
  | ErrPatterns (dest : string)
  | ErrKeepAllBlocks (dest : string)
  | ErrPatternKey (dest : string)
  | ErrKeep (dest : string)
  | ErrItem (dest : string)
  | ErrUnexpected.

(** [validated_config[output_file] = {"patterns": [...], "keep_all_blocks": b}] *)
Record dest_cfg := mk_dest_cfg {
  patterns : list (string * bool);   (* (pattern, keep) *)
  keep_all_blocks : bool
}.

Definition config := list (string * dest_cfg).

Fixpoint map_sum {A B E} (f : A -> E + B) (l : list A) : E + list B :=
  match l with
  | [] => inr []
  | x :: l' => match f x with
               | inl e => inl e
               | inr y => match map_sum f l' with
                          | inl e => inl e
                          | inr ys => inr (y :: ys)
                          end
               end
  end.

(** What [open] and [json.load] give for the configuration file. *)
Inductive config_source :=
  | CfgMissing                 (* FileNotFoundError *)
  | CfgBadJson                 (* json.JSONDecodeError *)
  | CfgJson (j : json).

Section Tools.
(** [re.compile(p).search(s)] for a user-supplied pattern [p]. *)
Variable search : string -> string -> bool.
(** [re.compile(p)] succeeds. *)
Variable regex_ok : string -> bool.

Definition validate_item (dest : string) (item : json) : cfg_err + (string * bool) :=
  match item with
  | JStr s => inr (s, false)
  | JObj o =>
      match lookup "pattern" o with
      | Some (JStr s) =>
          match lookup "keep" o with
          | None => inr (s, false)
          | Some (JBool b) => inr (s, b)
          | Some _ => inl (ErrKeep dest)
          end
      | _ => inl (ErrPatternKey dest)
      end
  | _ => inl (ErrItem dest)
  end.

Definition validate_dest (kv : string * json) : cfg_err + (string * dest_cfg) :=
  let '(dest, v) := kv in
  match v with
  | JObj o =>
      match lookup "patterns" o with
      | Some (JArr items) =>
          match lookup "keep_all_blocks" o with
          | None | Some (JBool _) =>
              let kab := match lookup "keep_all_blocks" o with
                         | Some (JBool b) => b | _ => false end in
              match map_sum (validate_item dest) items with
              | inl e => inl e
              | inr ps => inr (dest, mk_dest_cfg ps kab)
              end
          | Some _ => inl (ErrKeepAllBlocks dest)
          end
      | _ => inl (ErrPatterns dest)
      end
  | _ => inl (ErrNotObject dest)
  end.

Definition validate_config (j : json) : cfg_err + config :=
  match j with
  | JObj kv => map_sum validate_dest kv
  | _ => inl ErrUnexpected
  end.

Definition read_json_config (src : config_source) : M config :=
  match src with
  | CfgMissing => print RepConfigNotFound ;; raise (ExcExit 1)
  | CfgBadJson => print RepConfigBadJson ;; raise (ExcExit 1)
  | CfgJson j =>
      match validate_config j with
      | inl ErrUnexpected => print RepConfigUnexpected ;; raise (ExcExit 1)
      | inl _ => print RepConfigError ;; raise (ExcExit 1)
      | inr c => ret c
      end
  end.

(** The compilation loop of [extract_log_blocks]: [sys.exit(1)] on the first
    pattern [re.compile] rejects.  A compiled regex is kept as its source. *)
Definition compile_pattern_step (d : string) (pk : string * bool) : M unit :=
  if regex_ok (fst pk) then ret tt
  else (print (RepInvalidRegex (fst pk) d) ;; raise (ExcExit 1)).

Definition compile_config (cfg : config) : M config :=
  iterM (fun dd : string * dest_cfg => iterM (compile_pattern_step (fst dd)) (patterns (snd dd)))
        cfg ;;
  ret cfg.

(* ------------------------------------------------------------------ *)
(** ** splitLog.py: per-line classification and per-block dispatch *)

(** [for pattern_info in file_config["patterns"]: if ...search(line): ...; break]:
    the [keep] flag of the first pattern of the destination that matches. *)
Fixpoint first_match (l : string) (ps : list (string * bool)) : option bool :=
  match ps with
  | [] => None
  | (p, keep) :: ps' => if search p l then Some keep else first_match l ps'
  end.

(** [block_destination_files.add(d)].  The Python set is kept as a list
    without duplicates, in insertion order. *)
Definition set_add (d : string) (ds : list string) : list string :=
  if existsb (String.eqb d) ds then ds else ds ++ [d].

(** Flags: [block_destination_files], [block_should_also_keep_unmatched_by_pattern],
    [block_should_also_keep_unmatched_by_file]. *)
Definition flagsA := (list string * bool * bool)%type.

Definition flags0_A : flagsA := ([], false, false).

Definition scan_dest (l : string) (fl : flagsA) (dd : string * dest_cfg) : flagsA :=
  let '(ds, kp, kf) := fl in
  match first_match l (patterns (snd dd)) with
  | Some keep => (set_add (fst dd) ds, kp || keep, kf || keep_all_blocks (snd dd))
  | None => (ds, kp, kf)
  end.

(** [for output_file, file_config in compiled_patterns.items(): ...] *)
Definition scan_A (cfg : config) (fl : flagsA) (l : string) : flagsA :=
  fold_left (scan_dest l) cfg fl.

(** The "unmatched" decision of the script. *)
Definition also_fallback (fl : flagsA) : bool :=
  let '(ds, kp, kf) := fl in is_nil ds || kp || kf.

(** Counters: [blocks_read_in_file], [blocks_extracted_in_file],
    [unmatched_blocks_in_file]. *)
Definition countersA := (nat * nat * nat)%type.

(** Processing of one completed block ([if block_buffer: ...]). *)
Definition process_A (dir fallback : string) (buf : list string) (fl : flagsA)
  (c : countersA) : M countersA :=
  let '(ds, kp, kf) := fl in
  let '(r, e, u) := c in
  e' <- match ds with
        | [] => ret e
        | _ :: _ => iterM (fun d => append (join dir d) buf) ds ;; ret (S e)
        end ;;
  u' <- (if is_nil ds || kp || kf
         then append fallback buf ;; ret (S u)
         else ret u) ;;
  ret (S r, e', u').

(* ------------------------------------------------------------------ *)
(** ** splitLog.py: one log file, all log files, the whole run *)

(** Totals: [processed_files_count], [total_blocks_read],
    [total_blocks_extracted], [total_unmatched_blocks]. *)
Definition totalsA := (nat * nat * nat * nat)%type.

Definition unmatched_path (dir name : string) : string :=
  join dir (name ++ "_unmatched.log").

(** The body of [for log_filename in matching_log_files:]. *)
(** Its [try] block. *)
Definition body_A (cfg : config) (dir name : string) (src : source) (tot : totalsA)
  : M totalsA :=
  x <- open_source name src ;;
  c <- block_loop flags0_A (scan_A cfg) (process_A dir (unmatched_path dir name))
         name (snd x) [] flags0_A (0, 0, 0) (fst x) ;;
  let '(r, e, u) := c in
  let '(pc, tr, te, tu) := tot in
  print (RepFinished name r e u) ;;
  ret (S pc, tr + r, te + e, tu + u).

Definition process_file_A (cfg : config) (dir : string) (f : string * source)
  (tot : totalsA) : M totalsA :=
  let '(name, src) := f in
  print (RepProcessing name) ;;
  try_except (body_A cfg dir name src tot) (fun _ => print (RepError name) ;; ret tot).

Fixpoint run_files_A (cfg : config) (dir : string) (files : list (string * source))
  (tot : totalsA) : M totalsA :=
  match files with
  | [] => ret tot
  | f :: fs => tot' <- process_file_A cfg dir f tot ;; run_files_A cfg dir fs tot'
  end.

(** [extract_log_blocks(log_file_name_pattern, json_config_file_path, output_dir)];
    [listing] is [sorted(os.listdir('.'))] with each entry's [isfile] and contents. *)
Definition extract_log_blocks (pat : string) (cfg_src : config_source) (dir : string)
  (listing : list entry) : M unit :=
  emit (EvMakeDir dir) ;;
  config0 <- read_json_config cfg_src ;;
  (if is_nil config0 then print RepNoPatterns else ret tt) ;;
  compiled <- compile_config config0 ;;
  (if regex_ok pat then ret tt else raise (ExcRegex pat)) ;;
  emit EvListDir ;;
  let files := map (fun e : entry => (fst (fst e), snd e))
                   (filter (fun e : entry => snd (fst e) && search pat (fst (fst e))) listing) in
  match files with
  | [] => print RepNoFiles ;; raise (ExcExit 0)
  | _ :: _ => tot <- run_files_A compiled dir files (0, 0, 0, 0) ;; print RepSummary
  end.

(* ------------------------------------------------------------------ *)
(** ** RemoveLines.py *)

(** [str.isspace] on ASCII: tab, LF, VT, FF, CR, the separators 28..31, space. *)
Definition is_space (c : ascii) : bool :=
  let n := nat_of_ascii c in (((9 <=? n) && (n <=? 13)) || ((28 <=? n) && (n <=? 32)))%nat.

Fixpoint lstrip (s : string) : string :=
  match s with
  | EmptyString => EmptyString
  | String c s' => if is_space c then lstrip s' else s
  end.

Fixpoint rev_string (s : string) : string :=
  match s with
  | EmptyString => EmptyString
  | String c s' => rev_string s' ++ String c EmptyString
  end.

(** [str.strip()] *)
Definition strip (s : string) : string := rev_string (lstrip (rev_string (lstrip s))).

Definition starts_with_hash (s : string) : bool :=
  match s with String c _ => Ascii.eqb c "#"%char | EmptyString => false end.

(** [read_patterns_from_file], on the lines of an existing pattern file. *)
Definition read_patterns (file_lines : list string) : list string :=
  fold_left (fun acc line =>
               let stripped := strip line in
               if negb (String.eqb stripped "") && negb (starts_with_hash stripped)
               then (acc ++ [stripped])%list else acc) file_lines [].

(** The whole function: [None] is a missing pattern file. *)
Definition read_patterns_from_file (src : option (list string)) : M (list string) :=
  match src with
  | None => print RepPatternFileNotFound ;; raise (ExcExit 1)
  | Some ls => ret (read_patterns ls)
  end.

(** ["|".join(f"({p})" for p in line_removal_patterns)] *)
Fixpoint combined_pattern (ps : list string) : string :=
  match ps with
  | [] => ""
  | [p] => "(" ++ p ++ ")"
  | p :: ps' => "(" ++ p ++ ")|" ++ combined_pattern ps'
  end.

(** [line_removal_regex]: [None], or the compiled alternation
    [(p1)|(p2)|...], kept as its pattern string. *)
Definition build_removal_regex (ps : list string) : M (option string) :=
  match ps with
  | [] => ret None
  | _ :: _ => if regex_ok (combined_pattern ps) then ret (Some (combined_pattern ps))
              else raise (ExcRegex (combined_pattern ps))
  end.

(** [line_removal_regex and line_removal_regex.search(line)]. *)
Definition removal_search (rx : option string) (line : string) : bool :=
  match rx with
  | None => false
  | Some r => search r line
  end.

(** Flag [block_contains_match]. *)
Definition scan_B (rx : option string) (m : bool) (line : string) : bool :=
  m || removal_search rx line.

(** Counters: [lines_removed_in_file], [blocks_processed_in_file],
    [blocks_removed_in_file]. *)
Definition countersB := (nat * nat * nat)%type.

Definition process_B (out : string) (buf : list string) (m : bool) (c : countersB)
  : M countersB :=
  let '(lr, bp, br) := c in
  if negb m
  then iterM (write_line out) buf ;; ret (lr, S bp, br)
  else ret (lr + length buf, S bp, S br).

(** Totals: [processed_files_count], [total_lines_read], [total_lines_removed],
    [total_blocks_processed], [total_blocks_removed]. *)
Definition totalsB := (nat * nat * nat * nat * nat)%type.

(** The body of [for filename in matching_files:], its [try] block first.
    [lines_read_in_file] is incremented once per line yielded, so it is the
    number of lines read when the file completes. *)
Definition body_B (rx : option string) (name : string) (src : source) (tot : totalsB)
  : M totalsB :=
  let out := join "process" name in
  x <- open_source name src ;;
  truncate out ;;
  c <- block_loop false (scan_B rx) (process_B out) name (snd x) [] false (0, 0, 0) (fst x) ;;
  let '(lr, bp, br) := c in
  let '(pc, tl, tlr, tbp, tbr) := tot in
  let lines_read := length (fst x) in
  print (RepFinished name lines_read lr br) ;;
  ret (S pc, tl + lines_read, tlr + lr, tbp + bp, tbr + br).

Definition process_file_B (rx : option string) (f : string * source)
  (tot : totalsB) : M totalsB :=
  let '(name, src) := f in
  print (RepProcessing name) ;;
  try_except (body_B rx name src tot) (fun _ => print (RepError name) ;; ret tot).

Fixpoint run_files_B (rx : option string) (files : list (string * source))
  (tot : totalsB) : M totalsB :=
  match files with
  | [] => ret tot
  | f :: fs => tot' <- process_file_B rx f tot ;; run_files_B rx fs tot'
  end.

(** [remove_lines_from_files(file_name_pattern, pattern_file_path, debug_mode)];
    [listing] is [os.listdir('.')]; [confirmed] is whether the answer to the
    debug prompt is [y] or [yes]. *)
Definition remove_lines_from_files (pat : string) (pattern_src : option (list string))
  (debug_mode confirmed : bool) (listing : list entry) : M unit :=
  emit (EvMakeDir "process") ;;
  ps <- read_patterns_from_file pattern_src ;;
  (if regex_ok pat then ret tt else raise (ExcRegex pat)) ;;
  emit EvListDir ;;
  let files := map (fun e : entry => (fst (fst e), snd e))
                   (filter (fun e : entry => snd (fst e) && search pat (fst (fst e))) listing) in
  match files with
  | [] => print RepNoFiles ;; raise (ExcExit 0)
  | _ :: _ =>
      (if debug_mode && negb confirmed then print RepCancelled ;; raise (ExcExit 0)
       else ret tt) ;;
      rx <- build_removal_regex ps ;;
      tot <- run_files_B rx files (0, 0, 0, 0, 0) ;;
      print RepSummary
  end.

End Tools.

(** ** Concrete instances used to evaluate the model *)

(** [re.search(p, s)] for a pattern [p] made of literal characters only:
    [p] occurs in [s]. *)
Fixpoint literal_prefix (p s : string) : bool :=
  match p, s with
  | EmptyString, _ => true
  | String _ _, EmptyString => false
  | String c p', String c' s' => Ascii.eqb c c' && literal_prefix p' s'
  end.

Fixpoint literal_search (p s : string) : bool :=
  literal_prefix p s ||
  match s with
  | EmptyString => false
  | String _ s' => literal_search p s'
  end.

(** [re.compile] and [re.search] on the fragment of Python's regular
    expressions made of literal characters, capturing groups, alternation and
    the one-digit backreferences [\1] .. [\9].  Groups are numbered by their
    opening parenthesis from the left of the whole pattern, as [sre_parse]
    numbers them; a backreference to a group not yet closed at that point is
    refused ("invalid group reference", "cannot refer to an open group"). A
    pattern outside the fragment is refused too. *)
Inductive regex :=
  | REps
  | RChar (c : ascii)
  | RCat (r1 r2 : regex)
  | RAlt (r1 r2 : regex)
  | RGroup (n : nat) (r : regex)
  | RRef (n : nat).

Definition re_special (c : ascii) : bool :=
  existsb (Ascii.eqb c) (list_ascii_of_string ".^$*+?{}[]").

Definition digit_value (c : ascii) : option nat :=
  if is_digit c then Some (nat_of_ascii c - 48)%nat else None.

(** Parser state: the number of groups opened so far and the closed ones. *)
Fixpoint parse_alt (fuel : nat) (s : string) (g : nat) (closed : list nat)
  : option (regex * string * nat * list nat) :=
  match fuel with
  | O => None
  | S fuel' =>
      match parse_seq fuel' s g closed with
      | Some (r1, String c s1, g1, c1) =>
          if Ascii.eqb c "|"%char then
            match parse_alt fuel' s1 g1 c1 with
            | Some (r2, s2, g2, c2) => Some (RAlt r1 r2, s2, g2, c2)
            | None => None
            end
          else Some (r1, String c s1, g1, c1)
      | res => res
      end
  end
with parse_seq (fuel : nat) (s : string) (g : nat) (closed : list nat)
  : option (regex * string * nat * list nat) :=
  match fuel with
  | O => None
  | S fuel' =>
      match s with
      | EmptyString => Some (REps, s, g, closed)
      | String c s' =>
          if Ascii.eqb c "|"%char || Ascii.eqb c ")"%char then Some (REps, s, g, closed)
          else
            let atom :=
              if Ascii.eqb c "("%char then
                match parse_alt fuel' s' (S g) closed with
                | Some (r, String c2 s2, g2, c2l) =>
                    if Ascii.eqb c2 ")"%char then Some (RGroup (S g) r, s2, g2, S g :: c2l)
                    else None
                | _ => None
                end
              else if Ascii.eqb c "\"%char then
                match s' with
                | String d s2 =>
                    match digit_value d with
                    | Some n =>
                        let next_digit := match s2 with
                                          | String d' _ => is_digit d' | EmptyString => false end in
                        if negb (Nat.eqb n 0) && negb next_digit && (n <=? g)%nat
                           && existsb (Nat.eqb n) closed
                        then Some (RRef n, s2, g, closed) else None
                    | None => None
                    end
                | EmptyString => None
                end
              else if re_special c then None
              else Some (RChar c, s', g, closed) in
            match atom with
            | Some (a, s1, g1, c1) =>
                match parse_seq fuel' s1 g1 c1 with
                | Some (r, s2, g2, c2) => Some (RCat a r, s2, g2, c2)
                | None => None
                end
            | None => None
            end
      end
  end.

Definition parse_regex (p : string) : option regex :=
  match parse_alt (4 * String.length p + 4) p 0 [] with
  | Some (r, EmptyString, _, _) => Some r
  | _ => None
  end.

Fixpoint lookup_group (n : nat) (caps : list (nat * string)) : option string :=
  match caps with
  | [] => None
  | (m, t) :: caps' => if Nat.eqb n m then Some t else lookup_group n caps'
  end.

(** Backtracking match of [r] at the start of [s], with the captures so far,
    passing the rest of the subject and the captures to the continuation. *)
Fixpoint re_match (r : regex) (s : string) (caps : list (nat * string))
  (k : string -> list (nat * string) -> bool) : bool :=
  match r with
  | REps => k s caps
  | RChar c =>
      match s with
      | String c' s' => Ascii.eqb c c' && k s' caps
      | EmptyString => false
      end
  | RCat r1 r2 => re_match r1 s caps (fun s' caps' => re_match r2 s' caps' k)
  | RAlt r1 r2 => re_match r1 s caps k || re_match r2 s caps k
  | RGroup n r1 =>
      re_match r1 s caps (fun s' caps' =>
        k s' ((n, substring 0 (String.length s - String.length s') s) :: caps'))
  | RRef n =>
      match lookup_group n caps with
      | Some t => prefix t s && k (substring (String.length t) (String.length s - String.length t) s) caps
      | None => false
      end
  end.

Fixpoint re_search (r : regex) (s : string) : bool :=
  re_match r s [] (fun _ _ => true) ||
  match s with
  | EmptyString => false
  | String _ s' => re_search r s'
  end.

Definition py_regex_ok (p : string) : bool :=
  match parse_regex p with Some _ => true | None => false end.

Definition py_search (p s : string) : bool :=
  match parse_regex p with Some r => re_search r s | None => false end.

(** A [re.compile] that accepts every pattern. *)
Definition all_regex_ok (p : string) : bool := true.

(** No line after the first of a block is a boundary line. *)
Definition no_interior_boundary (b : list string) : Prop :=
  Forall (fun l => timestamp_regex_search l = false) (tl b).

(** Both tools' file loops are the segmenter followed by the processing of
    each block with its flags computed from the block's lines. *)
Definition tools_process_segments (search : string -> string -> bool) (ls : list string) : Prop :=
  (forall cfg dir fallback name c w,
     block_loop flags0_A (scan_A search cfg) (process_A dir fallback) name false [] flags0_A c ls w
     = process_all flags0_A (scan_A search cfg) (process_A dir fallback) (segment ls) c w)
  /\ (forall rx out name c w,
     block_loop false (scan_B search rx) (process_B out) name false [] false c ls w
     = process_all false (scan_B search rx) (process_B out) (segment ls) c w).

(** The rule set is refused: [read_json_config] rejects it, or one of its
    patterns is not a valid regex. *)
Definition config_rejected (regex_ok : string -> bool) (cs : config_source) : bool :=
  match cs with
  | CfgJson j =>
      match validate_config j with
      | inl _ => true
      | inr c => existsb (fun dd : string * dest_cfg =>
                            existsb (fun pk : string * bool => negb (regex_ok (fst pk)))
                                    (patterns (snd dd))) c
      end
  | _ => true
  end.

(** A [re.compile] that refuses the pattern ["("] (unbalanced parenthesis). *)
Definition rejects_open_paren (p : string) : bool := negb (String.eqb p "(").

(** Sample log lines, configurations and worlds. *)
Definition line_ab : string := "[10:00:00,000] ab".
Definition line_a : string := "[10:00:00,000] a".
Definition line_z : string := "[10:00:01,000] z".
Definition line_xx : string := "[10:00:00,000] xx".

(** One destination whose first rule does not keep and whose second rule keeps,
    and the same destination with its two rules swapped. *)
Definition cfg_keep_second : config :=
  [("errors.log", mk_dest_cfg [("a", false); ("b", true)] false)].
Definition cfg_keep_first : config :=
  [("errors.log", mk_dest_cfg [("b", true); ("a", false)] false)].

Definition cfg_a : config := [("errors.log", mk_dest_cfg [("a", false)] false)].

(** A configuration file whose only pattern does not compile. *)
Definition cfg_bad_regex : config_source :=
  CfgJson (JObj [("errors.log", JObj [("patterns", JArr [JStr "("])])]).

Definition w_empty : world := mk_world [] [] [].

(** [processed/errors.log] cannot be opened. *)
Definition w_ro : world := mk_world [] ["processed/errors.log"] [].

Definition w_ro_open : world :=
  mk_world (sinks w_ro) (ro w_ro)
    ((events w_ro ++ [EvPrint (RepProcessing "app.log")]) ++ [EvOpenSrc "app.log"]).

(** Events that touch neither input nor output files. *)
Definition quiet_event (ev : event) : Prop :=
  match ev with
  | EvMakeDir _ | EvPrint _ => True
  | _ => False
  end.

(** [w'] is [w] with only quiet events added: output files unchanged, no
    input file opened. *)
Definition extends_quietly (w w' : world) : Prop :=
  exists evs, w' = mk_world (sinks w) (ro w) (events w ++ evs) /\ Forall quiet_event evs.

(** Every exception but [SystemExit] is caught by [except Exception]. *)
Definition not_exit (e : exn) : Prop :=
  match e with ExcExit _ => False | _ => True end.

Definition no_exit {A} (m : M A) : Prop :=
  forall w e w', m w = (Exc e, w') -> not_exit e.

(** ** Observations used by the further properties *)

(** A validated configuration written back as JSON, every flag explicit. *)
Definition encode_pattern (pk : string * bool) : json :=
  JObj [("pattern", JStr (fst pk)); ("keep", JBool (snd pk))].

Definition encode_dest (dd : string * dest_cfg) : string * json :=
  (fst dd, JObj [("patterns", JArr (map encode_pattern (patterns (snd dd))));
                 ("keep_all_blocks", JBool (keep_all_blocks (snd dd)))]).

Definition encode_config (c : config) : json := JObj (map encode_dest c).

(** The paths a splitLog block is appended to, in order: its claimed
    destinations under [dir], then the unmatched file when the fallback
    decision holds. *)
Definition block_targets (dir fallback : string) (fl : flagsA) : list string :=
  (map (join dir) (fst (fst fl)) ++ (if also_fallback fl then [fallback] else []))%list.

(** A plain file name: nonempty, not [.] or [..], without [/].  Under one
    directory, [os.path.join(dir, q)] for distinct plain names [q] names
    distinct files (on a case-sensitive file system without links between
    them); a name such as [./errors.log] or [/tmp/x] is not plain. *)
Definition plain_name (s : string) : bool :=
  negb (String.eqb s "") && negb (String.eqb s ".") && negb (String.eqb s "..")
  && negb (existsb (Ascii.eqb "/"%char) (list_ascii_of_string s)).

Definition plain_names (cfg : config) : Prop :=
  Forall (fun dd : string * dest_cfg => plain_name (fst dd) = true) cfg.

(** What appending the block [b] to each path of [qs] in turn adds to [p]. *)
Definition added_to (p : string) (qs : list string) (b : list string) : list string :=
  concat (map (fun q => if String.eqb p q then b else []) qs).

Definition count_true {A} (f : A -> bool) (l : list A) : nat := length (filter f l).

(** The blocks of a file that RemoveLines keeps, and those it removes. *)
Definition kept_blocks (search : string -> string -> bool) (rx : option string)
  (ls : list string) : list (list string) :=
  filter (fun b => negb (classify false (scan_B search rx) b)) (segment ls).

Definition removed_blocks (search : string -> string -> bool) (rx : option string)
  (ls : list string) : list (list string) :=
  filter (classify false (scan_B search rx)) (segment ls).

(** Events that neither open a log file nor touch an output file. *)
Definition no_file_event (ev : event) : Prop :=
  match ev with
  | EvOpenSrc _ | EvAppend _ _ | EvTruncate _ | EvWrite _ _ => False
  | _ => True
  end.

Definition no_file_io (w w' : world) : Prop :=
  sinks w' = sinks w
  /\ exists evs, events w' = (events w ++ evs)%list /\ Forall no_file_event evs.

(** The first line of a block is a boundary line. *)
Definition starts_ts (b : list string) : Prop :=
  match b with
  | l :: _ => timestamp_regex_search l = true
  | [] => False
  end.

(** The shape of a list of blocks the segmenter emits: nonempty blocks
    without interior boundary, all but the first opening with a boundary. *)
Definition well_formed_blocks (bs : list (list string)) : Prop :=
  Forall (fun b => b <> [] /\ no_interior_boundary b) bs /\ Forall starts_ts (tl bs).

(** A pattern line [read_patterns] keeps, once stripped. *)
Definition pattern_kept (s : string) : bool :=
  negb (String.eqb s "") && negb (starts_with_hash s).

(** A three-line log: a block with a continuation line, then a second block. *)
Definition sample_log : list string := [line_ab; "  at x"; line_z].

(** A [re.compile] that rejects the patterns whose parentheses do not
    balance (escapes aside). *)
Fixpoint parens_depth (d : nat) (s : string) : option nat :=
  match s with
  | EmptyString => Some d
  | String c s' =>
      if Ascii.eqb c "("%char then parens_depth (S d) s'
      else if Ascii.eqb c ")"%char then
        match d with O => None | S d' => parens_depth d' s' end
      else parens_depth d s'
  end.

Definition parens_balanced (p : string) : bool :=
  match parens_depth 0 p with Some 0 => true | _ => false end.

(* ================================================================== *)
(** * Properties *)

Open Scope list_scope.

(** ** Monad and world lemmas *)

Lemma bind_ret_r {A} (m : M A) (w : world) : (x <- m ;; ret x) w = m w.
Proof. unfold bind, ret. destruct (m w) as [[a|e] w']; reflexivity. Qed.

Lemma bind_ext {A B} (m : M A) (k1 k2 : A -> M B) (w : world) :
  (forall a w', k1 a w' = k2 a w') -> bind m k1 w = bind m k2 w.
Proof. intros H. unfold bind. destruct (m w) as [[a|e] w']; auto. Qed.

Lemma bind_assoc {A B D} (m : M A) (k : A -> M B) (h : B -> M D) (w : world) :
  bind (bind m k) h w = bind m (fun a => bind (k a) h) w.
Proof. unfold bind. destruct (m w) as [[a|e] w']; reflexivity. Qed.

Lemma bind_ok {A B} (m : M A) (k : A -> M B) w a w' :
  m w = (Ok a, w') -> bind m k w = k a w'.
Proof. intros H. unfold bind. rewrite H. reflexivity. Qed.

Lemma bind_exc {A B} (m : M A) (k : A -> M B) w e w' :
  m w = (Exc e, w') -> bind m k w = (Exc e, w').
Proof. intros H. unfold bind. rewrite H. reflexivity. Qed.

Lemma sink_get_set_same p ls s : sink_get p (sink_set p ls s) = ls.
Proof.
  induction s as [|[q ls'] s IH]; simpl.
  - rewrite String.eqb_refl. reflexivity.
  - destruct (String.eqb p q) eqn:E; simpl; rewrite ?E, ?String.eqb_refl; auto.
Qed.

Global Hint Resolve sink_get_set_same : core.

(** ** The segmenter *)

Lemma segment_from_concat ls : forall buf, concat (segment_from buf ls) = buf ++ ls.
Proof.
  induction ls as [|l ls IH]; intros buf; simpl.
  - destruct buf; simpl; rewrite ?app_nil_r; reflexivity.
  - destruct (timestamp_regex_search l).
    + rewrite concat_app, IH. destruct buf; simpl; rewrite ?app_nil_r; reflexivity.
    + rewrite IH, <- app_assoc. reflexivity.
Qed.

Lemma segment_from_nonempty ls : forall buf, Forall (fun b => b <> []) (segment_from buf ls).
Proof.
  induction ls as [|l ls IH]; intros buf; simpl.
  - destruct buf; constructor; [discriminate | constructor].
  - destruct (timestamp_regex_search l); auto.
    apply Forall_app; split; auto.
    destruct buf; constructor; [discriminate | constructor].
Qed.

Lemma segment_from_boundaries ls : forall buf,
  no_interior_boundary buf -> Forall no_interior_boundary (segment_from buf ls).
Proof.
  induction ls as [|l ls IH]; intros buf Hbuf; simpl.
  - destruct buf; auto.
  - destruct (timestamp_regex_search l) eqn:Hts.
    + apply Forall_app; split.
      * destruct buf; auto.
      * apply IH. constructor.
    + apply IH. unfold no_interior_boundary in *.
      destruct buf as [|x buf]; simpl in *; [constructor|].
      apply Forall_app; split; auto.
Qed.

(** ** The block loop is the segmenter followed by per-block processing *)

Section LoopFactor.
Context {F C : Type}.
Variable f0 : F.
Variable scan : F -> string -> F.
Variable process : list string -> F -> C -> M C.

Lemma classify_snoc buf l : classify f0 scan (buf ++ [l]) = scan (classify f0 scan buf) l.
Proof. unfold classify. rewrite fold_left_app. reflexivity. Qed.

Lemma process_all_app bs1 bs2 c w :
  process_all f0 scan process (bs1 ++ bs2) c w
  = bind (process_all f0 scan process bs1 c) (process_all f0 scan process bs2) w.
Proof.
  revert c w. induction bs1 as [|b bs1 IH]; intros c w; simpl.
  - reflexivity.
  - rewrite bind_assoc. apply bind_ext. intros a w'. apply IH.
Qed.

Lemma block_loop_segment file ls : forall buf c w,
  block_loop f0 scan process file false buf (classify f0 scan buf) c ls w
  = process_all f0 scan process (segment_from buf ls) c w.
Proof.
  induction ls as [|l ls IH]; intros buf c w; simpl.
  - destruct buf; simpl; [reflexivity|]. symmetry. apply bind_ret_r.
  - destruct (timestamp_regex_search l).
    + rewrite process_all_app. destruct buf as [|x buf]; simpl.
      * apply IH.
      * rewrite bind_assoc. apply bind_ext. intros a w'. apply IH.
    + rewrite <- classify_snoc. apply IH.
Qed.

End LoopFactor.

Lemma tools_process_segments_holds search ls : tools_process_segments search ls.
Proof.
  split; intros; apply (block_loop_segment _ _ _ _ ls []).
Qed.

(** ** C1: segmentation completeness *)

(** Claim C1: the blocks the segmenter emits, concatenated in order, give back
    the input lines exactly; no block is empty; and both the [splitLog] loop
    and the [RemoveLines] loop process exactly these blocks, in this order. *)
Theorem segmentation_complete (search : string -> string -> bool) (ls : list string) :
  concat (segment ls) = ls
  /\ Forall (fun b => b <> []) (segment ls)
  /\ tools_process_segments search ls.
Proof.
  split; [apply segment_from_concat|].
  split; [apply segment_from_nonempty|].
  apply tools_process_segments_holds.
Qed.

(** ** C6: one boundary per block *)

(** Claim C6: in every block emitted by the segmenter that both tools use,
    no line other than the first matches the timestamp boundary regex. *)
Theorem single_boundary_per_block (search : string -> string -> bool) (ls : list string) :
  Forall no_interior_boundary (segment ls) /\ tools_process_segments search ls.
Proof.
  split.
  - apply segment_from_boundaries. constructor.
  - apply tools_process_segments_holds.
Qed.

(** ** RemoveLines: block flags and block output *)

Lemma fold_scan_B search rx b : forall m,
  fold_left (scan_B search rx) b m = m || existsb (removal_search search rx) b.
Proof.
  induction b as [|l b IH]; intros m; simpl.
  - rewrite orb_false_r. reflexivity.
  - rewrite IH. unfold scan_B. rewrite orb_assoc. reflexivity.
Qed.

Lemma classify_B search rx b :
  classify false (scan_B search rx) b = existsb (removal_search search rx) b.
Proof. unfold classify. apply fold_scan_B. Qed.

Lemma classify_B_none search b : classify false (scan_B search None) b = false.
Proof.
  rewrite classify_B. induction b as [|l b IH]; simpl; auto.
Qed.

Lemma iterM_write_line out b : forall w, exists w',
  iterM (write_line out) b w = (Ok tt, w')
  /\ sink_get out (sinks w') = sink_get out (sinks w) ++ b
  /\ ro w' = ro w.
Proof.
  induction b as [|l b IH]; intros w; simpl.
  - exists w. rewrite app_nil_r. auto.
  - unfold bind at 1, write_line at 1.
    destruct (IH (mk_world (sink_set out (sink_get out (sinks w) ++ [l]) (sinks w)) (ro w)
                           (events w ++ [EvWrite out l]))) as (w' & H1 & H2 & H3).
    exists w'. rewrite H1. simpl in H2, H3. rewrite H2, sink_get_set_same, <- app_assoc.
    auto.
Qed.

Lemma process_all_B_none search out bs : forall c w, exists c' w',
  process_all false (scan_B search None) (process_B out) bs c w = (Ok c', w')
  /\ sink_get out (sinks w') = sink_get out (sinks w) ++ concat bs
  /\ ro w' = ro w.
Proof.
  induction bs as [|b bs IH]; intros c w; simpl.
  - exists c, w. rewrite app_nil_r. auto.
  - rewrite classify_B_none. destruct c as [[lr bp] br]. simpl.
    rewrite bind_assoc.
    destruct (iterM_write_line out b w) as (w1 & E1 & S1 & R1).
    rewrite (bind_ok _ _ _ _ _ E1). simpl.
    destruct (IH (lr, S bp, br) w1) as (c' & w' & E2 & S2 & R2).
    exists c', w'. split; [exact E2|]. rewrite S2, S1, <- app_assoc. split; [reflexivity|congruence].
Qed.

Lemma existsb_ext' {A} (f g : A -> bool) l :
  (forall x, f x = g x) -> existsb f l = existsb g l.
Proof. intros H. induction l as [|x l IH]; simpl; rewrite ?H, ?IH; reflexivity. Qed.

(** ** C3: the joined removal regex renumbers the patterns' groups *)

(** Claim C3 fails: RemoveLines does not test each removal pattern but the one
    regex ["|".join(f"({p})" for p in patterns)], in which every pattern's
    groups are renumbered.  With the patterns [a] and [(x)\1], the second
    pattern alone matches the line [[10:00:00,000] xx], but in the joined
    regex [(a)|((x)\1)] its [\1] refers to the group of [a], which never
    matched there; the line is not matched, and the block is written to the
    output instead of being removed. *)
Theorem removal_regex_renumbers_groups :
  read_patterns ["a"; "(x)\1"] = ["a"; "(x)\1"]
  /\ py_search "(x)\1" line_xx = true
  /\ combined_pattern ["a"; "(x)\1"] = "(a)|((x)\1)"
  /\ py_search "(a)|((x)\1)" line_xx = false
  /\ exists w', remove_lines_from_files py_search py_regex_ok "log" (Some ["a"; "(x)\1"])
                  false false [("app.log", true, Some ([line_xx], false))] w_empty = (Ok tt, w')
                /\ sink_get (join "process" "app.log") (sinks w') = [line_xx].
Proof.
  split; [vm_compute; reflexivity|].
  split; [vm_compute; reflexivity|].
  split; [vm_compute; reflexivity|].
  split; [vm_compute; reflexivity|].
  eexists. split; [vm_compute; reflexivity|]. vm_compute. reflexivity.
Qed.

Lemma try_except_ok {A} (m : M A) h w a w' :
  m w = (Ok a, w') -> try_except m h w = (Ok a, w').
Proof. intros H. unfold try_except. rewrite H. reflexivity. Qed.

(** ** C10: no removal pattern, identity output *)

(** Claim C10: when the pattern file yields no pattern, no removal regex is
    built, and a source file read without error is copied unchanged into its
    output file [process/<name>]. *)
Theorem empty_patterns_identity (search : string -> string -> bool) (regex_ok : string -> bool)
  (pf : list string) (name : string) (ls : list string) (tot : totalsB) (w : world) :
  read_patterns pf = [] ->
  writable (join "process" name) w = true ->
  build_removal_regex regex_ok (read_patterns pf) w = (Ok None, w)
  /\ exists tot' w', process_file_B search None (name, Some (ls, false)) tot w = (Ok tot', w')
                  /\ sink_get (join "process" name) (sinks w') = ls.
Proof.
  intros Hp Hw. rewrite Hp. split; [reflexivity|].
  unfold process_file_B.
  erewrite bind_ok by reflexivity.
  set (out := join "process" name) in *.
  destruct (tools_process_segments_holds search ls) as [_ HB].
  destruct (process_all_B_none search out (segment ls) (0, 0, 0)
              (mk_world (sink_set out [] (sinks w)) (ro w)
                 (((events w ++ [EvPrint (RepProcessing name)]) ++ [EvOpenSrc name]) ++ [EvTruncate out])))
    as (c' & w' & E & S & R).
  destruct c' as [[lr bp] br]. destruct tot as [[[[pc tl] tlr] tbp] tbr].
  eexists. eexists. split.
  - apply try_except_ok. unfold body_B.
    erewrite bind_ok by reflexivity.
    erewrite bind_ok.
    2:{ unfold truncate. replace (writable out _) with true. reflexivity. }
    erewrite bind_ok.
    2:{ simpl. rewrite HB. exact E. }
    reflexivity.
  - simpl. rewrite S. simpl. rewrite sink_get_set_same. simpl.
    apply segment_from_concat.
Qed.

(** ** splitLog: the destination set and the dispatch of one block *)

Lemma set_add_nodup d ds : NoDup ds -> NoDup (set_add d ds).
Proof.
  intros H. unfold set_add. destruct (existsb (String.eqb d) ds) eqn:E; auto.
  apply NoDup_app; auto.
  - constructor; [intros []|constructor].
  - intros x Hx [<-|[]]. apply Bool.not_true_iff_false in E. apply E.
    apply existsb_exists. exists d. split; auto. apply String.eqb_refl.
Qed.

Lemma scan_A_nodup search cfg l : forall fl,
  NoDup (fst (fst fl)) -> NoDup (fst (fst (scan_A search cfg fl l))).
Proof.
  unfold scan_A. induction cfg as [|dd cfg IH]; intros [[ds kp] kf] H; simpl; auto.
  apply IH. unfold scan_dest. destruct (first_match search l (patterns (snd dd))); simpl; auto.
  apply set_add_nodup. exact H.
Qed.

Lemma classify_A_nodup search cfg b :
  NoDup (fst (fst (classify flags0_A (scan_A search cfg) b))).
Proof.
  unfold classify. assert (H0 : NoDup (fst (fst flags0_A))) by constructor.
  revert H0. generalize flags0_A.
  induction b as [|l b IH]; intros fl H; simpl; auto.
  apply IH. apply scan_A_nodup. exact H.
Qed.

Lemma writable_same_ro p w w' : ro w' = ro w -> writable p w' = writable p w.
Proof. intros H. unfold writable. rewrite H. reflexivity. Qed.

Lemma iterM_append_ok dir b ds : forall w,
  (forall p, writable p w = true) ->
  exists w', iterM (fun d => append (join dir d) b) ds w = (Ok tt, w')
             /\ events w' = events w ++ map (fun d => EvAppend (join dir d) b) ds
             /\ ro w' = ro w.
Proof.
  induction ds as [|d ds IH]; intros w Hw; simpl.
  - exists w. rewrite app_nil_r. auto.
  - unfold bind at 1, append at 1. rewrite Hw.
    destruct (IH (mk_world (sink_set (join dir d) (sink_get (join dir d) (sinks w) ++ b) (sinks w))
                           (ro w) (events w ++ [EvAppend (join dir d) b]))) as (w' & E & Ev & R).
    { intros p. rewrite <- (Hw p). apply writable_same_ro. reflexivity. }
    exists w'. rewrite E, Ev. simpl. rewrite <- app_assoc. simpl in R. auto.
Qed.

(** ** C9: one append per claimed destination *)

(** Claim C9: the destinations claimed by a block form a list without
    repetitions, whatever number of rules or lines matched; dispatching the
    block (all paths writable) appends it once to each of them, then once to
    the unmatched file when the fallback decision holds, and increases the
    routed-block counter by one exactly when some destination was claimed. *)
Theorem dispatch_once_per_destination (search : string -> string -> bool) (cfg : config)
  (dir fallback : string) (b ds : list string) (kp kf : bool) (r e u : nat) (w : world) :
  classify flags0_A (scan_A search cfg) b = (ds, kp, kf) ->
  (forall p, writable p w = true) ->
  NoDup ds
  /\ exists w', process_A dir fallback b (ds, kp, kf) (r, e, u) w
                = (Ok (S r, if is_nil ds then e else S e,
                       if also_fallback (ds, kp, kf) then S u else u), w')
              /\ events w' = events w ++ map (fun d => EvAppend (join dir d) b) ds
                             ++ (if also_fallback (ds, kp, kf) then [EvAppend fallback b] else []).
Proof.
  intros Hc Hw. split.
  { pose proof (classify_A_nodup search cfg b) as H. rewrite Hc in H. exact H. }
  destruct (iterM_append_ok dir b ds w Hw) as (w1 & E1 & Ev1 & R1).
  assert (Hw1 : forall p, writable p w1 = true).
  { intros p. rewrite <- (Hw p). apply writable_same_ro. exact R1. }
  unfold process_A, also_fallback.
  destruct ds as [|d ds'].
  - simpl in *. inversion E1; subst w1.
    cbv beta iota delta [bind ret append]. rewrite Hw. simpl.
    eexists. split; [reflexivity|]. reflexivity.
  - simpl is_nil. simpl orb.
    rewrite bind_assoc. rewrite (bind_ok _ _ _ _ _ E1).
    destruct (kp || kf).
    + cbv beta iota delta [bind ret append]. rewrite Hw1. simpl.
      eexists. split; [reflexivity|]. simpl. rewrite Ev1, <- app_assoc. reflexivity.
    + eexists. split; [reflexivity|]. rewrite Ev1, app_nil_r. reflexivity.
Qed.

(** ** C7: configuration errors are fatal before any log file is opened *)

Lemma extends_quietly_refl w : extends_quietly w w.
Proof. exists []. rewrite app_nil_r. destruct w; auto. Qed.

Lemma extends_quietly_trans w1 w2 w3 :
  extends_quietly w1 w2 -> extends_quietly w2 w3 -> extends_quietly w1 w3.
Proof.
  intros (e1 & -> & F1) (e2 & -> & F2). exists (e1 ++ e2). simpl.
  rewrite app_assoc. split; [reflexivity|]. apply Forall_app; auto.
Qed.

Lemma extends_quietly_print w r :
  extends_quietly w (mk_world (sinks w) (ro w) (events w ++ [EvPrint r])).
Proof. exists [EvPrint r]. split; [reflexivity|]. repeat constructor. Qed.

Lemma read_json_config_exc cs w ex w' :
  read_json_config cs w = (Exc ex, w') -> ex = ExcExit 1 /\ extends_quietly w w'.
Proof.
  intros H. destruct cs as [| |j]; simpl in H.
  - inversion H; subst. split; [reflexivity|apply extends_quietly_print].
  - inversion H; subst. split; [reflexivity|apply extends_quietly_print].
  - destruct (validate_config j) as [[]|c]; inversion H; subst;
      split; try reflexivity; apply extends_quietly_print.
Qed.

Lemma read_json_config_ok cs w c w' :
  read_json_config cs w = (Ok c, w') ->
  exists j, cs = CfgJson j /\ validate_config j = inr c /\ w' = w.
Proof.
  intros H. destruct cs as [| |j]; simpl in H; try discriminate.
  exists j. destruct (validate_config j) as [[]|c']; inversion H; subst; auto.
Qed.

Section CompileConfig.
Variable regex_ok : string -> bool.

Lemma compile_patterns_ok d ps w :
  existsb (fun pk : string * bool => negb (regex_ok (fst pk))) ps = false ->
  iterM (compile_pattern_step regex_ok d) ps w = (Ok tt, w).
Proof.
  revert w. induction ps as [|pk ps IH]; intros w H; simpl in *; [reflexivity|].
  apply orb_false_elim in H as [H1 H2].
  unfold compile_pattern_step at 1. destruct (regex_ok (fst pk)); [|discriminate].
  apply IH. exact H2.
Qed.

Lemma compile_patterns_fail d ps w :
  existsb (fun pk : string * bool => negb (regex_ok (fst pk))) ps = true ->
  exists w', iterM (compile_pattern_step regex_ok d) ps w = (Exc (ExcExit 1), w')
             /\ extends_quietly w w'.
Proof.
  revert w. induction ps as [|pk ps IH]; intros w H; simpl in *; [discriminate|].
  unfold compile_pattern_step at 1. destruct (regex_ok (fst pk)); simpl in H.
  - apply IH. exact H.
  - eexists. split; [reflexivity|]. apply extends_quietly_print.
Qed.

Lemma compile_config_fail (c : config) w :
  existsb (fun dd : string * dest_cfg =>
             existsb (fun pk : string * bool => negb (regex_ok (fst pk))) (patterns (snd dd))) c
  = true ->
  exists w', compile_config regex_ok c w = (Exc (ExcExit 1), w') /\ extends_quietly w w'.
Proof.
  intros H. unfold compile_config.
  assert (Hit : exists w', iterM (fun dd : string * dest_cfg =>
                                   iterM (compile_pattern_step regex_ok (fst dd)) (patterns (snd dd))) c w
                           = (Exc (ExcExit 1), w') /\ extends_quietly w w').
  { revert w H. induction c as [|dd c IH]; intros w H; simpl in *; [discriminate|].
    destruct (existsb _ (patterns (snd dd))) eqn:E.
    - destruct (compile_patterns_fail (fst dd) _ w E) as (w' & E' & Q).
      exists w'. split; [exact (bind_exc _ _ _ _ _ E')|exact Q].
    - rewrite (bind_ok _ _ _ _ _ (compile_patterns_ok (fst dd) _ w E)). apply IH. exact H. }
  destruct Hit as (w' & E & Q). exists w'. split; [|exact Q].
  exact (bind_exc _ _ _ _ _ E).
Qed.

End CompileConfig.

(** Claim C7: when the configuration is refused (missing file, invalid JSON,
    a shape [read_json_config] rejects, or a pattern [re.compile] rejects),
    [extract_log_blocks] exits with status 1 having only created the output
    directory and printed messages: no log file is opened and no output file
    is written. *)
Theorem config_error_fatal (search : string -> string -> bool) (regex_ok : string -> bool)
  (pat : string) (cs : config_source) (dir : string) (listing : list entry) (w : world) :
  config_rejected regex_ok cs = true ->
  exists w', extract_log_blocks search regex_ok pat cs dir listing w = (Exc (ExcExit 1), w')
             /\ extends_quietly w w'.
Proof.
  intros Hrej.
  destruct (extract_log_blocks search regex_ok pat cs dir listing w) as [r w'] eqn:E.
  exists w'. unfold extract_log_blocks in E.
  set (w1 := mk_world (sinks w) (ro w) (events w ++ [EvMakeDir dir])) in E.
  assert (Q1 : extends_quietly w w1).
  { exists [EvMakeDir dir]. split; [reflexivity|]. repeat constructor. }
  rewrite (bind_ok _ _ w tt w1) in E by reflexivity.
  destruct (read_json_config cs w1) as [[c|ex] w2] eqn:R.
  - rewrite (bind_ok _ _ _ _ _ R) in E.
    destruct (read_json_config_ok _ _ _ _ R) as (j & -> & Hv & ->).
    simpl in Hrej. rewrite Hv in Hrej.
    destruct (is_nil c) eqn:Hn.
    + set (w3 := mk_world (sinks w1) (ro w1) (events w1 ++ [EvPrint RepNoPatterns])) in E.
      rewrite (bind_ok _ _ w1 tt w3) in E by reflexivity.
      destruct (compile_config_fail regex_ok c w3 Hrej) as (w4 & E4 & Q4).
      rewrite (bind_exc _ _ _ _ _ E4) in E. inversion E; subst.
      split; [reflexivity|].
      apply (extends_quietly_trans _ _ _ Q1).
      apply (extends_quietly_trans _ _ _ (extends_quietly_print w1 RepNoPatterns)). exact Q4.
    + rewrite (bind_ok _ _ w1 tt w1) in E by reflexivity.
      destruct (compile_config_fail regex_ok c w1 Hrej) as (w4 & E4 & Q4).
      rewrite (bind_exc _ _ _ _ _ E4) in E. inversion E; subst.
      split; [reflexivity|]. exact (extends_quietly_trans _ _ _ Q1 Q4).
  - rewrite (bind_exc _ _ _ _ _ R) in E. inversion E; subst.
    destruct (read_json_config_exc _ _ _ _ R) as [-> Q2].
    split; [reflexivity|]. exact (extends_quietly_trans _ _ _ Q1 Q2).
Qed.

(** ** Exceptions of the per-file work *)

Lemma no_exit_ret {A} (a : A) : no_exit (ret a).
Proof. intros w e w' H. discriminate. Qed.

Lemma no_exit_emit ev : no_exit (emit ev).
Proof. intros w e w' H. discriminate. Qed.

Lemma no_exit_raise {A} e : not_exit e -> no_exit (@raise A e).
Proof. intros He w e' w' H. inversion H; subst. exact He. Qed.

Lemma no_exit_bind {A B} (m : M A) (k : A -> M B) :
  no_exit m -> (forall a, no_exit (k a)) -> no_exit (bind m k).
Proof.
  intros Hm Hk w e w' H. unfold bind in H.
  destruct (m w) as [[a|e0] w0] eqn:E.
  - exact (Hk a _ _ _ H).
  - inversion H; subst. exact (Hm _ _ _ E).
Qed.

Lemma no_exit_append p ls : no_exit (append p ls).
Proof. intros w e w' H. unfold append in H. destruct (writable p w); inversion H; exact I. Qed.

Lemma no_exit_truncate p : no_exit (truncate p).
Proof. intros w e w' H. unfold truncate in H. destruct (writable p w); inversion H; exact I. Qed.

Lemma no_exit_write_line p l : no_exit (write_line p l).
Proof. intros w e w' H. discriminate. Qed.

Lemma no_exit_print r : no_exit (print r).
Proof. apply no_exit_emit. Qed.

Lemma no_exit_iterM {A} (f : A -> M unit) l :
  (forall x, no_exit (f x)) -> no_exit (iterM f l).
Proof.
  intros Hf. induction l as [|x l IH]; simpl.
  - apply no_exit_ret.
  - apply no_exit_bind; auto.
Qed.

Lemma no_exit_open_source name src : no_exit (open_source name src).
Proof.
  unfold open_source. apply no_exit_bind; [apply no_exit_emit|]. intros _.
  destruct src; [apply no_exit_ret|apply no_exit_raise; exact I].
Qed.

Global Hint Resolve no_exit_ret no_exit_emit no_exit_print no_exit_append no_exit_truncate
  no_exit_write_line no_exit_open_source : core.

Lemma no_exit_process_A dir fb b fl c : no_exit (process_A dir fb b fl c).
Proof.
  destruct fl as [[ds kp] kf], c as [[r e] u]. unfold process_A.
  apply no_exit_bind.
  - destruct ds; auto. apply no_exit_bind; auto. apply no_exit_iterM. auto.
  - intros e'. apply no_exit_bind; auto.
    destruct (is_nil ds || kp || kf); auto. apply no_exit_bind; auto.
Qed.

Lemma no_exit_process_B out b m c : no_exit (process_B out b m c).
Proof.
  destruct c as [[lr bp] br]. unfold process_B.
  destruct (negb m); auto. apply no_exit_bind; auto. apply no_exit_iterM. auto.
Qed.

Section LoopExc.
Context {F C : Type}.
Variable f0 : F.
Variable scan : F -> string -> F.
Variable process : list string -> F -> C -> M C.

Lemma no_exit_block_loop file fails ls : forall buf fl c,
  (forall b fl c, no_exit (process b fl c)) ->
  no_exit (block_loop f0 scan process file fails buf fl c ls).
Proof.
  induction ls as [|l ls IH]; intros buf fl c Hp; simpl.
  - destruct fails; [apply no_exit_raise; exact I|].
    destruct buf; simpl; auto.
  - destruct (timestamp_regex_search l); auto.
    apply no_exit_bind; auto. destruct buf; simpl; auto.
Qed.

(** With a read error pending, the loop never completes normally. *)
Lemma block_loop_read_error file ls : forall buf fl c w,
  exists e w', block_loop f0 scan process file true buf fl c ls w = (Exc e, w').
Proof.
  induction ls as [|l ls IH]; intros buf fl c w; simpl.
  - exists (ExcRead file), w. reflexivity.
  - destruct (timestamp_regex_search l); auto.
    unfold bind. destruct (flush process buf fl c w) as [[a|e] w']; eauto.
Qed.

End LoopExc.

Lemma try_except_exc {A} (m : M A) h w e w' :
  m w = (Exc e, w') -> not_exit e -> try_except m h w = h e w'.
Proof. intros H He. unfold try_except. rewrite H. destruct e; auto. contradiction. Qed.

Lemma try_except_report {A} (m : M A) r (t : A) w :
  no_exit m ->
  exists a w', try_except m (fun _ => print r ;; ret t) w = (Ok a, w').
Proof.
  intros Hm. destruct (m w) as [[a|e] w'] eqn:E.
  - exists a, w'. exact (try_except_ok _ _ _ _ _ E).
  - rewrite (try_except_exc _ _ _ _ _ E (Hm _ _ _ E)). eexists. eexists. reflexivity.
Qed.

Lemma try_except_report_exc {A} (m : M A) r (t : A) w e w' :
  m w = (Exc e, w') -> not_exit e ->
  try_except m (fun _ => print r ;; ret t) w
  = (Ok t, mk_world (sinks w') (ro w') (events w' ++ [EvPrint r])).
Proof. intros E He. rewrite (try_except_exc _ _ _ _ _ E He). reflexivity. Qed.

Section Files.
Variable search : string -> string -> bool.

Lemma process_file_A_body cfg dir name src tot w :
  process_file_A search cfg dir (name, src) tot w
  = try_except (body_A search cfg dir name src tot) (fun _ => print (RepError name) ;; ret tot)
      (mk_world (sinks w) (ro w) (events w ++ [EvPrint (RepProcessing name)])).
Proof. reflexivity. Qed.

Lemma process_file_B_body rx name src tot w :
  process_file_B search rx (name, src) tot w
  = try_except (body_B search rx name src tot) (fun _ => print (RepError name) ;; ret tot)
      (mk_world (sinks w) (ro w) (events w ++ [EvPrint (RepProcessing name)])).
Proof. reflexivity. Qed.

Lemma no_exit_body_A cfg dir name src tot : no_exit (body_A search cfg dir name src tot).
Proof.
  unfold body_A. apply no_exit_bind; auto. intros x. apply no_exit_bind.
  - apply no_exit_block_loop. intros. apply no_exit_process_A.
  - intros [[r e] u]. destruct tot as [[[pc tr] te] tu]. apply no_exit_bind; auto.
Qed.

Lemma no_exit_body_B rx name src tot : no_exit (body_B search rx name src tot).
Proof.
  unfold body_B. apply no_exit_bind; auto. intros x. apply no_exit_bind; auto. intros _.
  apply no_exit_bind.
  - apply no_exit_block_loop. intros. apply no_exit_process_B.
  - intros [[lr bp] br]. destruct tot as [[[[pc tl] tlr] tbp] tbr]. apply no_exit_bind; auto.
Qed.

Lemma run_files_A_total cfg dir files : forall tot w,
  exists tot' w', run_files_A search cfg dir files tot w = (Ok tot', w').
Proof.
  induction files as [|[name src] files IH]; intros tot w.
  - exists tot, w. reflexivity.
  - cbn [run_files_A]. unfold bind at 1. rewrite process_file_A_body.
    destruct (try_except_report (body_A search cfg dir name src tot) (RepError name) tot
                (mk_world (sinks w) (ro w) (events w ++ [EvPrint (RepProcessing name)])))
      as (t & w' & E); [apply no_exit_body_A|].
    rewrite E. apply IH.
Qed.

Lemma run_files_B_total rx files : forall tot w,
  exists tot' w', run_files_B search rx files tot w = (Ok tot', w').
Proof.
  induction files as [|[name src] files IH]; intros tot w.
  - exists tot, w. reflexivity.
  - cbn [run_files_B]. unfold bind at 1. rewrite process_file_B_body.
    destruct (try_except_report (body_B search rx name src tot) (RepError name) tot
                (mk_world (sinks w) (ro w) (events w ++ [EvPrint (RepProcessing name)])))
      as (t & w' & E); [apply no_exit_body_B|].
    rewrite E. apply IH.
Qed.

End Files.

Lemma body_A_source_error search cfg dir name src tot w :
  (src = None \/ exists ls, src = Some (ls, true)) ->
  exists e w', body_A search cfg dir name src tot w = (Exc e, w').
Proof.
  intros [-> | [ls ->]]; unfold body_A.
  - eexists. eexists. reflexivity.
  - erewrite bind_ok by reflexivity. simpl fst. simpl snd.
    destruct (block_loop_read_error flags0_A (scan_A search cfg)
                (process_A dir (unmatched_path dir name)) name ls [] flags0_A (0, 0, 0)
                (mk_world (sinks w) (ro w) (events w ++ [EvOpenSrc name])))
      as (e & w' & E).
    exists e, w'. exact (bind_exc _ _ _ _ _ E).
Qed.

Lemma body_B_source_error search rx name src tot w :
  (src = None \/ exists ls, src = Some (ls, true)) ->
  exists e w', body_B search rx name src tot w = (Exc e, w').
Proof.
  intros [-> | [ls ->]]; unfold body_B.
  - eexists. eexists. reflexivity.
  - erewrite bind_ok by reflexivity.
    set (w1 := mk_world (sinks w) (ro w) (events w ++ [EvOpenSrc name])).
    destruct (truncate (join "process" name) w1) as [[[]|e] w2] eqn:T.
    + rewrite (bind_ok _ _ _ _ _ T). simpl fst. simpl snd.
      destruct (block_loop_read_error false (scan_B search rx) (process_B (join "process" name))
                  name ls [] false (0, 0, 0) w2) as (e & w' & E).
      exists e, w'. exact (bind_exc _ _ _ _ _ E).
    + exists e, w2. exact (bind_exc _ _ _ _ _ T).
Qed.

(** ** C8: a source read failure is reported and skipped *)

(** Claim C8: when a log file cannot be opened, or its reading raises, the
    per-file loop of either tool catches the error, reports it for that file
    as its latest message, leaves the run totals as they were, and goes on
    with the remaining files; no per-file error ever escapes either loop. *)
Theorem source_error_isolated (search : string -> string -> bool) (cfg : config) (dir : string)
  (rx : option string) (name : string) (src : source)
  (rest : list (string * source)) (totA : totalsA) (totB : totalsB) (w : world) :
  (src = None \/ exists ls, src = Some (ls, true)) ->
  (exists w', run_files_A search cfg dir ((name, src) :: rest) totA w
              = run_files_A search cfg dir rest totA w'
              /\ exists evs, events w' = evs ++ [EvPrint (RepError name)])
  /\ (exists w', run_files_B search rx ((name, src) :: rest) totB w
                 = run_files_B search rx rest totB w'
                 /\ exists evs, events w' = evs ++ [EvPrint (RepError name)])
  /\ (forall files tot w0, exists tot' w', run_files_A search cfg dir files tot w0 = (Ok tot', w'))
  /\ (forall files tot w0, exists tot' w', run_files_B search rx files tot w0 = (Ok tot', w')).
Proof.
  intros Hsrc.
  set (w1 := mk_world (sinks w) (ro w) (events w ++ [EvPrint (RepProcessing name)])).
  split; [|split; [|split]].
  - destruct (body_A_source_error search cfg dir name src totA w1 Hsrc) as (e & w' & E).
    exists (mk_world (sinks w') (ro w') (events w' ++ [EvPrint (RepError name)])).
    split; [|exists (events w'); reflexivity].
    cbn [run_files_A]. unfold bind at 1. rewrite process_file_A_body. fold w1.
    rewrite (try_except_report_exc _ _ _ _ _ _ E (no_exit_body_A search cfg dir name src totA _ _ _ E)).
    reflexivity.
  - destruct (body_B_source_error search rx name src totB w1 Hsrc) as (e & w' & E).
    exists (mk_world (sinks w') (ro w') (events w' ++ [EvPrint (RepError name)])).
    split; [|exists (events w'); reflexivity].
    cbn [run_files_B]. unfold bind at 1. rewrite process_file_B_body. fold w1.
    rewrite (try_except_report_exc _ _ _ _ _ _ E (no_exit_body_B search rx name src totB _ _ _ E)).
    reflexivity.
  - intros. apply run_files_A_total.
  - intros. apply run_files_B_total.
Qed.

(** ** C5: a failing output file aborts the rest of the log file *)

Lemma iterM_append_fail dir b d post_d pre_d : forall w,
  (forall x, In x pre_d -> writable (join dir x) w = true) ->
  writable (join dir d) w = false ->
  exists w', iterM (fun x => append (join dir x) b) (pre_d ++ d :: post_d) w
             = (Exc (ExcOS (join dir d)), w')
             /\ events w' = events w ++ map (fun x => EvAppend (join dir x) b) pre_d.
Proof.
  induction pre_d as [|x pre_d IH]; intros w Hpre Hd; simpl.
  - exists w. split; [|rewrite app_nil_r; reflexivity].
    unfold bind at 1, append at 1. rewrite Hd. reflexivity.
  - unfold bind at 1, append at 1. rewrite (Hpre x (or_introl eq_refl)).
    set (w1 := mk_world (sink_set (join dir x) (sink_get (join dir x) (sinks w) ++ b) (sinks w))
                        (ro w) (events w ++ [EvAppend (join dir x) b])).
    destruct (IH w1) as (w' & E & Ev).
    + intros y Hy. rewrite <- (Hpre y (or_intror Hy)). apply writable_same_ro. reflexivity.
    + rewrite <- Hd. apply writable_same_ro. reflexivity.
    + exists w'. split; [exact E|]. rewrite Ev. simpl. rewrite <- app_assoc. reflexivity.
Qed.

(** Claim C5, as the code behaves: when the dispatch of a block raises
    (an output file that cannot be opened), the rest of that block's writes
    and every later block of the same log file are skipped; the error is
    caught by the per-file loop, reported for the file, the totals stay as
    they were, and the run goes on with the next log file. *)
Theorem sink_failure_aborts_file (search : string -> string -> bool) (cfg : config)
  (dir name : string) (ls : list string) (rest : list (string * source)) (tot : totalsA)
  (w : world) (pre post : list (list string)) (b : list string) (c : countersA)
  (w1 w2 : world) (e : exn) :
  segment ls = pre ++ b :: post ->
  process_all flags0_A (scan_A search cfg) (process_A dir (unmatched_path dir name)) pre (0, 0, 0)
    (mk_world (sinks w) (ro w) ((events w ++ [EvPrint (RepProcessing name)]) ++ [EvOpenSrc name]))
  = (Ok c, w1) ->
  process_A dir (unmatched_path dir name) b (classify flags0_A (scan_A search cfg) b) c w1
  = (Exc e, w2) ->
  run_files_A search cfg dir ((name, Some (ls, false)) :: rest) tot w
  = run_files_A search cfg dir rest tot
      (mk_world (sinks w2) (ro w2) (events w2 ++ [EvPrint (RepError name)]))
  /\ (forall ds kp kf pre_d d post_d,
        ds = pre_d ++ d :: post_d ->
        (forall x, In x pre_d -> writable (join dir x) w1 = true) ->
        writable (join dir d) w1 = false ->
        exists w3, process_A dir (unmatched_path dir name) b (ds, kp, kf) c w1
                   = (Exc (ExcOS (join dir d)), w3)
                   /\ events w3 = events w1 ++ map (fun x => EvAppend (join dir x) b) pre_d).
Proof.
  intros Hseg Hpre Hb. split.
  - cbn [run_files_A]. unfold bind at 1. rewrite process_file_A_body.
    set (wp := mk_world (sinks w) (ro w) (events w ++ [EvPrint (RepProcessing name)])).
    assert (Eb : body_A search cfg dir name (Some (ls, false)) tot wp = (Exc e, w2)).
    { unfold body_A. erewrite bind_ok by reflexivity. simpl fst. simpl snd.
      apply bind_exc.
      rewrite (proj1 (tools_process_segments_holds search ls)).
      rewrite Hseg, process_all_app.
      rewrite (bind_ok _ _ _ _ _ Hpre). cbn [process_all].
      apply bind_exc. exact Hb. }
    rewrite (try_except_report_exc _ _ _ _ _ _ Eb (no_exit_process_A _ _ _ _ _ _ _ _ Hb)).
    reflexivity.
  - intros ds kp kf pre_d d post_d -> Hok Hd. destruct c as [[r e0] u].
    destruct (iterM_append_fail dir b d post_d pre_d w1 Hok Hd) as (w3 & E & Ev).
    exists w3. split; [|exact Ev].
    unfold process_A.
    assert (Hm : forall k1 k2 : M nat,
               match pre_d ++ d :: post_d with [] => k1 | _ :: _ => k2 end = k2)
      by (intros; destruct pre_d; reflexivity).
    rewrite Hm, bind_assoc. apply bind_exc. exact E.
Qed.

(* ================================================================== *)
(** * Evaluations at concrete inputs *)

(** ** C2: the fallback decision depends on the order of a destination's rules *)

(** Claim C2 fails: for the line [line_ab], matched by both rules of
    [errors.log], the [break] after the first matching rule means that only
    that rule's [keep] flag is read.  With the keeping rule second, the block
    does not go to the unmatched file; with the two rules swapped, it does. *)
Theorem keep_flag_depends_on_rule_order :
  classify flags0_A (scan_A literal_search cfg_keep_second) [line_ab] = (["errors.log"], false, false)
  /\ classify flags0_A (scan_A literal_search cfg_keep_first) [line_ab] = (["errors.log"], true, false)
  /\ also_fallback (classify flags0_A (scan_A literal_search cfg_keep_second) [line_ab]) = false
  /\ also_fallback (classify flags0_A (scan_A literal_search cfg_keep_first) [line_ab]) = true.
Proof. vm_compute. repeat split. Qed.

(** ** C4: a matching rule with [keep] can be ignored *)

(** Claim C4 fails: the rule ["b"] with [keep = true] matches [line_ab] and
    [errors.log] is claimed, yet the fallback decision is false, and running
    the file loop on a log made of that one line leaves the unmatched file
    empty. *)
Theorem matched_keep_rule_ignored :
  literal_search "b" line_ab = true
  /\ classify flags0_A (scan_A literal_search cfg_keep_second) [line_ab] = (["errors.log"], false, false)
  /\ also_fallback (classify flags0_A (scan_A literal_search cfg_keep_second) [line_ab]) = false
  /\ sink_get (unmatched_path "processed" "app.log")
       (sinks (snd (run_files_A literal_search cfg_keep_second "processed"
                     [("app.log", Some ([line_ab], false))] (0, 0, 0, 0) w_empty))) = [].
Proof. vm_compute. repeat split. Qed.

(** ** C5: the counterexample *)

(** Claim C5 fails: the first block of [app.log] goes to [errors.log], which
    cannot be opened; the second block claims no destination, so it is bound
    for the unmatched file, but it never reaches it: the whole file is
    abandoned and counted in no total. *)
Lemma sink_failure_counterexample :
  classify flags0_A (scan_A literal_search cfg_a) [line_z] = ([], false, false)
  /\ sink_get (unmatched_path "processed" "app.log")
       (sinks (snd (run_files_A literal_search cfg_a "processed"
                     [("app.log", Some ([line_a; line_z], false))] (0, 0, 0, 0) w_ro))) = []
  /\ fst (run_files_A literal_search cfg_a "processed"
            [("app.log", Some ([line_a; line_z], false))] (0, 0, 0, 0) w_ro) = Ok (0, 0, 0, 0).
Proof. vm_compute. repeat split. Qed.

(** ** Witnesses *)

Lemma sink_failure_aborts_file_witness :
  run_files_A literal_search cfg_a "processed" [("app.log", Some ([line_a; line_z], false))]
    (0, 0, 0, 0) w_ro
  = run_files_A literal_search cfg_a "processed" [] (0, 0, 0, 0)
      (mk_world (sinks w_ro_open) (ro w_ro_open)
         (events w_ro_open ++ [EvPrint (RepError "app.log")])).
Proof.
  refine (proj1 (sink_failure_aborts_file literal_search cfg_a "processed" "app.log"
                   [line_a; line_z] [] (0, 0, 0, 0) w_ro [] [[line_z]] [line_a] (0, 0, 0)
                   w_ro_open w_ro_open (ExcOS "processed/errors.log") _ _ _));
    vm_compute; reflexivity.
Defined.

Lemma config_error_fatal_witness :
  exists w', extract_log_blocks literal_search rejects_open_paren "app" cfg_bad_regex "processed"
               [("app.log", true, Some ([line_a], false))] w_empty = (Exc (ExcExit 1), w')
             /\ extends_quietly w_empty w'.
Proof.
  apply (config_error_fatal literal_search rejects_open_paren "app" cfg_bad_regex "processed"
           [("app.log", true, Some ([line_a], false))] w_empty).
  vm_compute. reflexivity.
Defined.

Lemma source_error_isolated_witness :
  exists w', run_files_A literal_search cfg_a "processed"
               [("missing.log", None); ("app.log", Some ([line_z], false))] (0, 0, 0, 0) w_empty
             = run_files_A literal_search cfg_a "processed"
                 [("app.log", Some ([line_z], false))] (0, 0, 0, 0) w'
             /\ exists evs, events w' = evs ++ [EvPrint (RepError "missing.log")].
Proof.
  refine (proj1 (source_error_isolated literal_search cfg_a "processed" None "missing.log" None
                   [("app.log", Some ([line_z], false))] (0, 0, 0, 0) (0, 0, 0, 0, 0) w_empty _)).
  left. reflexivity.
Defined.

Lemma dispatch_once_per_destination_witness :
  NoDup ["errors.log"]
  /\ exists w', process_A "processed" (unmatched_path "processed" "app.log") [line_ab; line_a]
                  (["errors.log"], true, false) (0, 0, 0) w_empty
                = (Ok (1, if is_nil ["errors.log"] then 0 else 1,
                       if also_fallback (["errors.log"], true, false) then 1 else 0), w')
              /\ events w' = events w_empty
                             ++ map (fun d => EvAppend (join "processed" d) [line_ab; line_a])
                                    ["errors.log"]
                             ++ (if also_fallback (["errors.log"], true, false)
                                 then [EvAppend (unmatched_path "processed" "app.log")
                                         [line_ab; line_a]]
                                 else []).
Proof.
  apply (dispatch_once_per_destination literal_search cfg_keep_first "processed"
           (unmatched_path "processed" "app.log") [line_ab; line_a] ["errors.log"] true false
           0 0 0 w_empty).
  - vm_compute. reflexivity.
  - intros p. reflexivity.
Defined.

Lemma empty_patterns_identity_witness :
  build_removal_regex all_regex_ok (read_patterns ["# no pattern"; "   "]) w_empty = (Ok None, w_empty)
  /\ exists tot' w', process_file_B literal_search None ("app.log", Some ([line_a; "trace"; line_z], false))
                       (0, 0, 0, 0, 0) w_empty = (Ok tot', w')
                     /\ sink_get (join "process" "app.log") (sinks w') = [line_a; "trace"; line_z].
Proof.
  apply (empty_patterns_identity literal_search all_regex_ok ["# no pattern"; "   "] "app.log"
           [line_a; "trace"; line_z] (0, 0, 0, 0, 0) w_empty).
  - vm_compute. reflexivity.
  - reflexivity.
Defined.

(* ================================================================== *)
(** * Further properties of the two scripts *)

(** ** Output files *)

Lemma sink_get_set_other p q ls s :
  String.eqb p q = false -> sink_get p (sink_set q ls s) = sink_get p s.
Proof.
  intros H. induction s as [|[r ls'] s IH]; simpl.
  - rewrite H. reflexivity.
  - destruct (String.eqb q r) eqn:E; simpl.
    + apply String.eqb_eq in E. subst r. rewrite H. reflexivity.
    + destruct (String.eqb p r); auto.
Qed.

Lemma sink_get_after_append p q b s :
  sink_get p (sink_set q (sink_get q s ++ b) s) = sink_get p s ++ (if String.eqb p q then b else []).
Proof.
  destruct (String.eqb p q) eqn:E.
  - apply String.eqb_eq in E. subst q. rewrite sink_get_set_same. reflexivity.
  - rewrite sink_get_set_other by exact E. rewrite app_nil_r. reflexivity.
Qed.

Lemma added_to_nil_l p b : added_to p [] b = [].
Proof. reflexivity. Qed.

Lemma added_to_cons p q qs b :
  added_to p (q :: qs) b = (if String.eqb p q then b else []) ++ added_to p qs b.
Proof. reflexivity. Qed.

Lemma added_to_app p qs1 qs2 b : added_to p (qs1 ++ qs2) b = added_to p qs1 b ++ added_to p qs2 b.
Proof. unfold added_to. rewrite map_app, concat_app. reflexivity. Qed.

Lemma iterM_append_paths {A} (h : A -> string) (b : list string) (ds : list A) : forall w,
  (forall p, writable p w = true) ->
  exists w', iterM (fun d => append (h d) b) ds w = (Ok tt, w')
             /\ (forall p, sink_get p (sinks w') = sink_get p (sinks w) ++ added_to p (map h ds) b)
             /\ ro w' = ro w.
Proof.
  induction ds as [|d ds IH]; intros w Hw; simpl.
  - exists w. split; [reflexivity|]. split; [|reflexivity].
    intros p. rewrite added_to_nil_l, app_nil_r. reflexivity.
  - unfold bind at 1, append at 1. rewrite Hw.
    destruct (IH (mk_world (sink_set (h d) (sink_get (h d) (sinks w) ++ b) (sinks w))
                           (ro w) (events w ++ [EvAppend (h d) b]))) as (w' & E & S & R).
    { intros p. rewrite <- (Hw p). apply writable_same_ro. reflexivity. }
    exists w'. rewrite E. split; [reflexivity|]. split; [|exact R].
    intros p. rewrite S. simpl. rewrite sink_get_after_append, added_to_cons, app_assoc.
    reflexivity.
Qed.

(** ** splitLog: what one block adds to the output files *)

Lemma process_A_sinks dir fb b fl r e u w :
  (forall p, writable p w = true) ->
  exists w', process_A dir fb b fl (r, e, u) w
             = (Ok (S r, if is_nil (fst (fst fl)) then e else S e,
                    if also_fallback fl then S u else u), w')
             /\ (forall p, sink_get p (sinks w')
                           = sink_get p (sinks w) ++ added_to p (block_targets dir fb fl) b)
             /\ ro w' = ro w.
Proof.
  intros Hw. destruct fl as [[ds kp] kf].
  destruct (iterM_append_paths (join dir) b ds w Hw) as (w1 & E1 & S1 & R1).
  assert (Hw1 : forall p, writable p w1 = true).
  { intros p. rewrite <- (Hw p). apply writable_same_ro. exact R1. }
  assert (Hstep : exists w2,
            (if is_nil ds || kp || kf then append fb b ;; ret (S u) else ret u) w1
            = (Ok (if is_nil ds || kp || kf then S u else u), w2)
            /\ (forall p, sink_get p (sinks w2)
                          = sink_get p (sinks w1)
                            ++ added_to p (if is_nil ds || kp || kf then [fb] else []) b)
            /\ ro w2 = ro w1).
  { destruct (is_nil ds || kp || kf).
    - eexists. split.
      + cbv beta iota delta [bind ret append]. rewrite Hw1. reflexivity.
      + split; [|reflexivity]. intros p. simpl. rewrite sink_get_after_append.
        rewrite added_to_cons, added_to_nil_l, app_nil_r. reflexivity.
    - exists w1. split; [reflexivity|]. split; [|reflexivity].
      intros p. rewrite added_to_nil_l, app_nil_r. reflexivity. }
  destruct Hstep as (w2 & E2 & S2 & R2).
  exists w2. split; [|split].
  - unfold process_A. destruct ds as [|d ds'].
    + simpl in E1. inversion E1; subst w1.
      rewrite (bind_ok _ _ w e w) by reflexivity.
      rewrite (bind_ok _ _ _ _ _ E2). reflexivity.
    + rewrite (bind_ok _ _ w (S e) w1).
      2:{ cbv beta iota. rewrite (bind_ok _ _ _ _ _ E1). reflexivity. }
      rewrite (bind_ok _ _ _ _ _ E2). reflexivity.
  - intros p. rewrite S2, S1. unfold block_targets, also_fallback. simpl fst.
    rewrite added_to_app, app_assoc. reflexivity.
  - congruence.
Qed.

Lemma process_all_A_sinks search cfg dir fb segs : forall r e u w,
  (forall p, writable p w = true) ->
  exists w', process_all flags0_A (scan_A search cfg) (process_A dir fb) segs (r, e, u) w
             = (Ok (r + length segs,
                    e + count_true (fun b => negb (is_nil (fst (fst (classify flags0_A (scan_A search cfg) b))))) segs,
                    u + count_true (fun b => also_fallback (classify flags0_A (scan_A search cfg) b)) segs), w')
             /\ (forall p, sink_get p (sinks w')
                           = sink_get p (sinks w)
                             ++ concat (map (fun b => added_to p (block_targets dir fb
                                                (classify flags0_A (scan_A search cfg) b)) b) segs))
             /\ ro w' = ro w.
Proof.
  induction segs as [|b segs IH]; intros r e u w Hw.
  - exists w. simpl. rewrite !Nat.add_0_r. split; [reflexivity|].
    split; [intros p; rewrite app_nil_r; reflexivity|reflexivity].
  - cbn [process_all].
    set (fl := classify flags0_A (scan_A search cfg) b).
    destruct (process_A_sinks dir fb b fl r e u w Hw) as (w1 & E1 & S1 & R1).
    rewrite (bind_ok _ _ _ _ _ E1).
    assert (Hw1 : forall p, writable p w1 = true).
    { intros p. rewrite <- (Hw p). apply writable_same_ro. exact R1. }
    destruct (IH (S r) (if is_nil (fst (fst fl)) then e else S e)
                 (if also_fallback fl then S u else u) w1 Hw1) as (w2 & E2 & S2 & R2).
    exists w2. split; [|split].
    + rewrite E2. unfold count_true. cbn [filter length].
      fold fl. destruct (is_nil (fst (fst fl))), (also_fallback fl); simpl;
        (apply (f_equal2 pair); [|reflexivity]); f_equal;
        (apply (f_equal2 pair); [apply (f_equal2 pair)|]); lia.
    + intros p. rewrite S2, S1. simpl. rewrite app_assoc. reflexivity.
    + congruence.
Qed.

Lemma process_file_A_outputs search cfg dir name ls pc tr te tu w :
  (forall p, writable p w = true) ->
  exists w', process_file_A search cfg dir (name, Some (ls, false)) (pc, tr, te, tu) w
             = (Ok (S pc, tr + length (segment ls),
                    te + count_true (fun b => negb (is_nil (fst (fst (classify flags0_A (scan_A search cfg) b))))) (segment ls),
                    tu + count_true (fun b => also_fallback (classify flags0_A (scan_A search cfg) b)) (segment ls)), w')
             /\ (forall p, sink_get p (sinks w')
                           = sink_get p (sinks w)
                             ++ concat (map (fun b => added_to p (block_targets dir (unmatched_path dir name)
                                                (classify flags0_A (scan_A search cfg) b)) b) (segment ls))).
Proof.
  intros Hw.
  set (w1 := mk_world (sinks w) (ro w)
               ((events w ++ [EvPrint (RepProcessing name)]) ++ [EvOpenSrc name])).
  assert (Hw1 : forall p, writable p w1 = true) by exact Hw.
  destruct (process_all_A_sinks search cfg dir (unmatched_path dir name) (segment ls) 0 0 0 w1 Hw1)
    as (w2 & E2 & S2 & _).
  destruct (tools_process_segments_holds search ls) as [HA _].
  eexists. split.
  - rewrite process_file_A_body. apply try_except_ok. unfold body_A.
    erewrite bind_ok by reflexivity. cbn [fst snd].
    erewrite bind_ok by (rewrite HA; exact E2).
    reflexivity.
  - intros p. simpl. rewrite S2. reflexivity.
Qed.

Lemma string_app_cancel_l (a b c : string) : (a ++ b)%string = (a ++ c)%string -> b = c.
Proof.
  induction a as [|x a IH]; simpl; auto.
  intros H. injection H. exact IH.
Qed.

Lemma join_eqb dir a b : String.eqb (join dir a) (join dir b) = String.eqb a b.
Proof.
  destruct (String.eqb a b) eqn:E.
  - apply String.eqb_eq in E. subst b. apply String.eqb_refl.
  - apply String.eqb_neq. intros H. unfold join in H.
    apply string_app_cancel_l in H. simpl in H. injection H as H.
    subst b. rewrite String.eqb_refl in E. discriminate.
Qed.

Lemma scan_dests_in search cfg l : forall (cfg' : config) (fl : flagsA),
  incl cfg' cfg ->
  (forall d, In d (fst (fst fl)) -> In d (map fst cfg)) ->
  forall d, In d (fst (fst (fold_left (scan_dest search l) cfg' fl))) -> In d (map fst cfg).
Proof.
  induction cfg' as [|dd cfg' IH]; intros fl Hinc Hfl; simpl; auto.
  apply IH.
  - intros x Hx. apply Hinc. right. exact Hx.
  - destruct fl as [[ds kp] kf]. unfold scan_dest.
    destruct (first_match search l (patterns (snd dd))); simpl; auto.
    intros d Hd. unfold set_add in Hd. destruct (existsb (String.eqb (fst dd)) ds); auto.
    apply in_app_or in Hd as [Hd|[<-|[]]]; auto.
    apply in_map. apply Hinc. left. reflexivity.
Qed.

(** Only destinations of the configuration are ever claimed. *)
Lemma classify_A_dests search cfg b d :
  In d (fst (fst (classify flags0_A (scan_A search cfg) b))) -> In d (map fst cfg).
Proof.
  unfold classify.
  assert (H0 : forall d, In d (fst (fst flags0_A)) -> In d (map fst cfg)) by (intros ? []).
  revert H0. generalize flags0_A.
  induction b as [|l b IH]; intros fl Hfl; simpl; auto.
  apply IH. apply scan_dests_in; auto. intros x Hx. exact Hx.
Qed.

Lemma added_to_absent p qs b :
  (forall q, In q qs -> String.eqb p q = false) -> added_to p qs b = [].
Proof.
  induction qs as [|q qs IH]; intros H; [reflexivity|].
  rewrite added_to_cons, H by (left; reflexivity). apply IH.
  intros x Hx. apply H. right. exact Hx.
Qed.

Lemma added_to_join_nodup dir d ds b :
  NoDup ds -> added_to (join dir d) (map (join dir) ds) b
              = if existsb (String.eqb d) ds then b else [].
Proof.
  induction ds as [|x ds IH]; intros Hnd; [reflexivity|].
  inversion Hnd as [|? ? Hx Hnd']; subst.
  cbn [map existsb]. rewrite added_to_cons, join_eqb, IH by exact Hnd'.
  destruct (String.eqb d x) eqn:E; simpl.
  - apply String.eqb_eq in E. subst x.
    destruct (existsb (String.eqb d) ds) eqn:E'; [|apply app_nil_r].
    apply existsb_exists in E' as (y & Hy & Ey). apply String.eqb_eq in Ey. subst y.
    contradiction.
  - reflexivity.
Qed.

Lemma count_true_le {A} (f : A -> bool) l : count_true f l <= length l.
Proof.
  unfold count_true. induction l as [|x l IH]; simpl; [lia|].
  destruct (f x); simpl; lia.
Qed.

Lemma count_true_cover {A} (f g : A -> bool) l :
  (forall x, f x || g x = true) -> length l <= count_true f l + count_true g l.
Proof.
  intros H. unfold count_true. induction l as [|x l IH]; simpl; [lia|].
  specialize (H x). destruct (f x), (g x); simpl in *; try discriminate; lia.
Qed.

Lemma classify_A_empty search b : classify flags0_A (scan_A search []) b = flags0_A.
Proof.
  unfold classify. generalize flags0_A.
  induction b as [|l b IH]; intros fl; simpl; auto.
Qed.

(** ** splitLog: one log file read to its end *)

(** A log file read without error, all output paths writable: the file is
    counted as processed; its blocks read are the segmenter's blocks, its
    extracted blocks those claiming some destination, its unmatched blocks
    those for which the fallback decision holds; and, the log and the
    destinations having plain names, each file of the output directory grows,
    after its previous contents, by every block appended to it, in the
    order of the blocks and, within a block, of its targets. *)
Theorem split_file_outputs (search : string -> string -> bool) (cfg : config)
  (dir name : string) (ls : list string) (pc tr te tu : nat) (w : world) :
  (forall p, writable p w = true) ->
  plain_name name = true ->
  plain_names cfg ->
  exists w', process_file_A search cfg dir (name, Some (ls, false)) (pc, tr, te, tu) w
             = (Ok (S pc, tr + length (segment ls),
                    te + count_true (fun b => negb (is_nil (fst (fst (classify flags0_A (scan_A search cfg) b))))) (segment ls),
                    tu + count_true (fun b => also_fallback (classify flags0_A (scan_A search cfg) b)) (segment ls)), w')
             /\ (forall q, plain_name q = true ->
                 sink_get (join dir q) (sinks w')
                 = sink_get (join dir q) (sinks w)
                   ++ concat (map (fun b => added_to (join dir q)
                                              (block_targets dir (unmatched_path dir name)
                                                 (classify flags0_A (scan_A search cfg) b)) b)
                                  (segment ls))).
Proof.
  intros Hw _ _.
  destruct (process_file_A_outputs search cfg dir name ls pc tr te tu w Hw) as (w' & E & S).
  exists w'. split; [exact E|]. intros q _. apply S.
Qed.

(** The unmatched file of a log receives, after its previous contents, the
    blocks for which the fallback decision holds, each once and in order,
    provided the log and the destinations have plain names and no destination
    is itself named [<log>_unmatched.log]. *)
Theorem unmatched_file_contents (search : string -> string -> bool) (cfg : config)
  (dir name : string) (ls : list string) (tot : totalsA) (w : world) :
  (forall p, writable p w = true) ->
  plain_name name = true ->
  plain_names cfg ->
  ~ In (name ++ "_unmatched.log")%string (map fst cfg) ->
  exists tot' w', process_file_A search cfg dir (name, Some (ls, false)) tot w = (Ok tot', w')
    /\ sink_get (unmatched_path dir name) (sinks w')
       = sink_get (unmatched_path dir name) (sinks w)
         ++ concat (filter (fun b => also_fallback (classify flags0_A (scan_A search cfg) b))
                           (segment ls)).
Proof.
  intros Hw _ _ Hn. destruct tot as [[[pc tr] te] tu].
  destruct (process_file_A_outputs search cfg dir name ls pc tr te tu w Hw) as (w' & E & S).
  eexists. exists w'. split; [exact E|]. rewrite S. f_equal. clear E S.
  induction (segment ls) as [|b bs IH]; [reflexivity|].
  cbn [map concat filter]. rewrite IH. unfold block_targets. rewrite added_to_app.
  rewrite added_to_absent.
  2:{ intros q Hq. apply in_map_iff in Hq as (d & <- & Hd).
      unfold unmatched_path. rewrite join_eqb. apply String.eqb_neq. intros <-.
      apply Hn. exact (classify_A_dests search cfg b _ Hd). }
  destruct (also_fallback _); cbn [concat app];
    rewrite ?added_to_cons, ?added_to_nil_l, ?String.eqb_refl, ?app_nil_r; reflexivity.
Qed.

(** A destination file receives, after its previous contents, exactly the
    blocks that claim it, each once and in order, provided the destinations
    have plain names and the file is not the log's own unmatched file. *)
Theorem destination_file_contents (search : string -> string -> bool) (cfg : config)
  (dir name d : string) (ls : list string) (tot : totalsA) (w : world) :
  (forall p, writable p w = true) ->
  plain_name d = true ->
  plain_names cfg ->
  d <> (name ++ "_unmatched.log")%string ->
  exists tot' w', process_file_A search cfg dir (name, Some (ls, false)) tot w = (Ok tot', w')
    /\ sink_get (join dir d) (sinks w')
       = sink_get (join dir d) (sinks w)
         ++ concat (filter (fun b => existsb (String.eqb d)
                                       (fst (fst (classify flags0_A (scan_A search cfg) b))))
                           (segment ls)).
Proof.
  intros Hw _ _ Hd. destruct tot as [[[pc tr] te] tu].
  destruct (process_file_A_outputs search cfg dir name ls pc tr te tu w Hw) as (w' & E & S).
  eexists. exists w'. split; [exact E|]. rewrite S. f_equal. clear E S.
  induction (segment ls) as [|b bs IH]; [reflexivity|].
  cbn [map concat filter]. rewrite IH. unfold block_targets. rewrite added_to_app.
  rewrite added_to_join_nodup by apply classify_A_nodup.
  rewrite (added_to_absent _ (if also_fallback _ then _ else _)).
  2:{ intros q Hq. destruct (also_fallback _); [|destruct Hq].
      destruct Hq as [<-|[]]. unfold unmatched_path. rewrite join_eqb.
      apply String.eqb_neq. exact Hd. }
  rewrite app_nil_r. destruct (existsb _ _); reflexivity.
Qed.

(** Every block read goes somewhere: for a log file read to its end, the
    blocks read number at most the blocks extracted plus the blocks written
    to the unmatched file, and each of these two counts is at most the
    number of blocks read. *)
Theorem every_block_written (search : string -> string -> bool) (cfg : config)
  (dir name : string) (ls : list string) (w : world) :
  (forall p, writable p w = true) ->
  exists r e u w', process_file_A search cfg dir (name, Some (ls, false)) (0, 0, 0, 0) w
                   = (Ok (1, r, e, u), w')
                   /\ r = length (segment ls) /\ e <= r /\ u <= r /\ r <= e + u.
Proof.
  intros Hw.
  destruct (process_file_A_outputs search cfg dir name ls 0 0 0 0 w Hw) as (w' & E & _).
  do 3 eexists. exists w'. split; [exact E|]. cbn [Nat.add].
  split; [reflexivity|]. split; [apply count_true_le|]. split; [apply count_true_le|].
  apply count_true_cover. intros b.
  destruct (classify flags0_A (scan_A search cfg) b) as [[ds kp] kf].
  unfold also_fallback. destruct ds; reflexivity.
Qed.

(** With an empty configuration, every block is unmatched: the unmatched
    file of a log receives the whole log, line for line, after its previous
    contents, and no block is counted as extracted. *)
Theorem empty_config_copies_to_unmatched (search : string -> string -> bool)
  (dir name : string) (ls : list string) (pc tr te tu : nat) (w : world) :
  (forall p, writable p w = true) ->
  exists w', process_file_A search [] dir (name, Some (ls, false)) (pc, tr, te, tu) w
             = (Ok (S pc, tr + length (segment ls), te, tu + length (segment ls)), w')
             /\ sink_get (unmatched_path dir name) (sinks w')
                = sink_get (unmatched_path dir name) (sinks w) ++ ls.
Proof.
  intros Hw.
  destruct (process_file_A_outputs search [] dir name ls pc tr te tu w Hw) as (w' & E & S).
  exists w'. split.
  - rewrite E. unfold count_true.
    assert (H1 : forall bs : list (list string),
               filter (fun b => negb (is_nil (fst (fst (classify flags0_A (scan_A search []) b))))) bs = []).
    { induction bs as [|b bs IH]; [reflexivity|]. cbn [filter].
      rewrite classify_A_empty. exact IH. }
    assert (H2 : forall bs : list (list string),
               filter (fun b => also_fallback (classify flags0_A (scan_A search []) b)) bs = bs).
    { induction bs as [|b bs IH]; [reflexivity|]. cbn [filter].
      rewrite classify_A_empty. simpl. rewrite IH. reflexivity. }
    rewrite H1, H2. simpl. rewrite Nat.add_0_r. reflexivity.
  - rewrite S. f_equal. clear E S.
    rewrite <- (segment_from_concat ls []) at 2. fold (segment ls).
    induction (segment ls) as [|b bs IH]; [reflexivity|].
    cbn [map concat]. rewrite IH, classify_A_empty.
    unfold block_targets, also_fallback, flags0_A. cbn [fst map app is_nil orb].
    rewrite added_to_cons, added_to_nil_l, String.eqb_refl, !app_nil_r. reflexivity.
Qed.

(** ** RemoveLines: one log file read to its end *)

Lemma process_all_B_sinks search rx out segs : forall lr bp br w,
  exists w', process_all false (scan_B search rx) (process_B out) segs (lr, bp, br) w
             = (Ok (lr + length (concat (filter (classify false (scan_B search rx)) segs)),
                    bp + length segs,
                    br + length (filter (classify false (scan_B search rx)) segs)), w')
             /\ sink_get out (sinks w')
                = sink_get out (sinks w)
                  ++ concat (filter (fun b => negb (classify false (scan_B search rx) b)) segs)
             /\ ro w' = ro w.
Proof.
  induction segs as [|b segs IH]; intros lr bp br w.
  - exists w. simpl. rewrite !Nat.add_0_r, app_nil_r. auto.
  - cbn [process_all filter].
    destruct (classify false (scan_B search rx) b) eqn:Hc; cbn [negb process_B].
    + rewrite (bind_ok _ _ w (lr + length b, S bp, S br) w) by reflexivity.
      destruct (IH (lr + length b) (S bp) (S br) w) as (w' & E & S & R).
      exists w'. rewrite E. split; [|auto].
      cbn [concat length]. rewrite length_app.
      (apply (f_equal2 pair); [|reflexivity]); f_equal;
        (apply (f_equal2 pair); [apply (f_equal2 pair)|]); lia.
    + destruct (iterM_write_line out b w) as (w1 & E1 & S1 & R1).
      rewrite (bind_ok _ _ w (lr, S bp, br) w1).
      2:{ rewrite (bind_ok _ _ _ _ _ E1). reflexivity. }
      destruct (IH lr (S bp) br w1) as (w' & E & S & R).
      exists w'. rewrite E. split; [|split].
      * cbn [length]. (apply (f_equal2 pair); [|reflexivity]); f_equal;
          (apply (f_equal2 pair); [apply (f_equal2 pair)|]); lia.
      * rewrite S, S1. cbn [concat]. rewrite <- app_assoc. reflexivity.
      * congruence.
Qed.

Lemma process_file_B_outputs search rx name ls pc tl tlr tbp tbr w :
  writable (join "process" name) w = true ->
  exists w', process_file_B search rx (name, Some (ls, false)) (pc, tl, tlr, tbp, tbr) w
             = (Ok (S pc, tl + length ls, tlr + length (concat (removed_blocks search rx ls)),
                    tbp + length (segment ls), tbr + length (removed_blocks search rx ls)), w')
             /\ sink_get (join "process" name) (sinks w') = concat (kept_blocks search rx ls)
             /\ ro w' = ro w.
Proof.
  intros Hw. set (out := join "process" name) in *.
  set (w2 := mk_world (sink_set out [] (sinks w)) (ro w)
               (((events w ++ [EvPrint (RepProcessing name)]) ++ [EvOpenSrc name]) ++ [EvTruncate out])).
  destruct (process_all_B_sinks search rx out (segment ls) 0 0 0 w2) as (w3 & E3 & S3 & R3).
  destruct (tools_process_segments_holds search ls) as [_ HB].
  eexists. split; [|split].
  - rewrite process_file_B_body. apply try_except_ok. unfold body_B. fold out.
    erewrite bind_ok by reflexivity.
    erewrite bind_ok.
    2:{ unfold truncate. replace (writable out _) with true. reflexivity. }
    erewrite bind_ok by (cbn [fst snd]; rewrite HB; exact E3).
    reflexivity.
  - simpl. rewrite S3. simpl. rewrite sink_get_set_same. reflexivity.
  - simpl. rewrite R3. reflexivity.
Qed.

(** A log file read without error, its output path writable: the output file
    [process/<name>] is overwritten with the blocks kept, in order and line
    for line; the lines read are the file's lines, the lines and blocks
    removed are those of the flagged blocks, the blocks processed are the
    segmenter's blocks, and the file is counted as processed. *)
Theorem remove_file_output (search : string -> string -> bool) (rx : option string)
  (name : string) (ls : list string) (pc tl tlr tbp tbr : nat) (w : world) :
  writable (join "process" name) w = true ->
  exists w', process_file_B search rx (name, Some (ls, false)) (pc, tl, tlr, tbp, tbr) w
             = (Ok (S pc, tl + length ls, tlr + length (concat (removed_blocks search rx ls)),
                    tbp + length (segment ls), tbr + length (removed_blocks search rx ls)), w')
             /\ sink_get (join "process" name) (sinks w') = concat (kept_blocks search rx ls).
Proof.
  intros Hw. destruct (process_file_B_outputs search rx name ls pc tl tlr tbp tbr w Hw)
    as (w' & E & S & _).
  exists w'. auto.
Qed.

Lemma length_concat_filter_split {A} (f : list A -> bool) (bs : list (list A)) :
  length (concat (filter (fun b => negb (f b)) bs)) + length (concat (filter f bs))
  = length (concat bs).
Proof.
  induction bs as [|b bs IH]; [reflexivity|].
  cbn [filter concat]. destruct (f b); cbn [negb concat]; rewrite !length_app; lia.
Qed.

(** Lines are conserved: once a log file read without error is processed,
    its output file [process/<name>] holds exactly as many lines as the
    file's increment of [total_lines_read] less its increment of
    [total_lines_removed]. *)
Theorem remove_lines_conserved (search : string -> string -> bool) (rx : option string)
  (name : string) (ls : list string) (pc tl tlr tbp tbr : nat) (w : world) :
  writable (join "process" name) w = true ->
  exists pc' tl' tlr' tbp' tbr' w',
    process_file_B search rx (name, Some (ls, false)) (pc, tl, tlr, tbp, tbr) w
    = (Ok (pc', tl', tlr', tbp', tbr'), w')
    /\ tlr <= tlr'
    /\ tl' = tl + length (sink_get (join "process" name) (sinks w')) + (tlr' - tlr).
Proof.
  intros Hw. destruct (process_file_B_outputs search rx name ls pc tl tlr tbp tbr w Hw)
    as (w' & E & S & _).
  do 5 eexists. exists w'. split; [exact E|]. rewrite S. split; [lia|].
  pose proof (length_concat_filter_split (classify false (scan_B search rx)) (segment ls)) as L.
  unfold segment in L. rewrite segment_from_concat in L. cbn [app] in L.
  unfold kept_blocks, removed_blocks, segment. lia.
Qed.

(** ** Re-segmenting kept blocks *)

Lemma segment_from_no_boundary ls : forall buf rest,
  Forall (fun l => timestamp_regex_search l = false) ls ->
  segment_from buf (ls ++ rest) = segment_from (buf ++ ls) rest.
Proof.
  induction ls as [|l ls IH]; intros buf rest H; simpl.
  - rewrite app_nil_r. reflexivity.
  - inversion H as [|? ? Hl Hls]; subst. rewrite Hl, IH by exact Hls.
    rewrite <- app_assoc. reflexivity.
Qed.

Lemma segment_from_blocks bs : forall buf,
  Forall (fun b => b <> [] /\ no_interior_boundary b) bs -> Forall starts_ts bs ->
  segment_from buf (concat bs) = match buf with [] => [] | _ :: _ => [buf] end ++ bs.
Proof.
  induction bs as [|b bs IH]; intros buf H1 H2.
  { simpl. rewrite app_nil_r. reflexivity. }
  inversion H1 as [|? ? [Hne Hni] H1']; subst. inversion H2 as [|? ? Hts H2']; subst.
  destruct b as [|l b]; [contradiction|]. simpl in Hts, Hni |- *.
  rewrite Hts, segment_from_no_boundary by exact Hni.
  rewrite IH by assumption. reflexivity.
Qed.

Lemma segment_of_well_formed bs : well_formed_blocks bs -> segment (concat bs) = bs.
Proof.
  intros [H1 H2]. destruct bs as [|b bs]; [reflexivity|].
  inversion H1 as [|? ? [Hne Hni] H1']; subst. simpl in H2.
  destruct b as [|l b]; [contradiction|]. unfold segment. simpl.
  rewrite segment_from_no_boundary by exact Hni.
  assert (E : segment_from ([] ++ l :: b) (concat bs) = [l :: b] ++ bs)
    by (apply segment_from_blocks; assumption).
  destruct (timestamp_regex_search l); simpl in *; exact E.
Qed.

Lemma segment_from_starts ls : forall buf,
  Forall starts_ts (tl (segment_from buf ls))
  /\ (starts_ts buf -> Forall starts_ts (segment_from buf ls)).
Proof.
  induction ls as [|l ls IH]; intros buf; simpl.
  - destruct buf as [|x buf]; simpl; split; auto.
  - destruct (timestamp_regex_search l) eqn:Hl.
    + destruct (IH [l]) as [_ H]. specialize (H Hl).
      destruct buf as [|x buf]; simpl.
      * split; [|intros []]. destruct (segment_from [l] ls); simpl; [constructor|].
        inversion H; auto.
      * split; [exact H|]. intros Hx. constructor; auto.
    + destruct (IH (buf ++ [l])) as [H1 H2]. split; auto.
      intros Hb. apply H2. destruct buf as [|x buf]; [contradiction|]. exact Hb.
Qed.

Lemma segment_well_formed ls : well_formed_blocks (segment ls).
Proof.
  split.
  - unfold segment.
    pose proof (segment_from_nonempty ls []) as H1.
    pose proof (segment_from_boundaries ls [] (Forall_nil _)) as H2.
    induction (segment_from [] ls) as [|b bs IH]; constructor.
    + inversion H1; inversion H2; subst; auto.
    + inversion H1; inversion H2; subst; auto.
  - apply segment_from_starts.
Qed.

Lemma Forall_filter {A} (P : A -> Prop) (f : A -> bool) l :
  Forall P l -> Forall P (filter f l).
Proof.
  intros H. induction H as [|x l Hx H IH]; simpl; auto. destruct (f x); auto.
Qed.

Lemma filter_well_formed f bs : well_formed_blocks bs -> well_formed_blocks (filter f bs).
Proof.
  intros [H1 H2]. split; [apply Forall_filter; exact H1|].
  destruct bs as [|b bs]; [constructor|]. simpl in H2 |- *.
  destruct (f b); simpl.
  - apply Forall_filter. exact H2.
  - pose proof (Forall_filter _ f _ H2) as H. destruct (filter f bs); simpl; auto.
    inversion H; auto.
Qed.

Lemma filter_idem {A} (f : A -> bool) l : filter f (filter f l) = filter f l.
Proof.
  induction l as [|x l IH]; simpl; auto.
  destruct (f x) eqn:E; simpl; rewrite ?E, IH; reflexivity.
Qed.

Lemma kept_blocks_idem search rx ls :
  kept_blocks search rx (concat (kept_blocks search rx ls)) = kept_blocks search rx ls.
Proof.
  unfold kept_blocks at 1 3.
  rewrite segment_of_well_formed by apply filter_well_formed, segment_well_formed.
  apply filter_idem.
Qed.

(** RemoveLines is idempotent: running it again, with the same removal
    regex, on a file it produced (its output path writable both times)
    produces that same file again, and removes nothing more. *)
Theorem remove_idempotent (search : string -> string -> bool) (rx : option string)
  (name : string) (ls : list string) (tot1 tot2 : totalsB) (w1 w2 : world) :
  writable (join "process" name) w1 = true ->
  writable (join "process" name) w2 = true ->
  exists t1 w1' t2 w2',
    process_file_B search rx (name, Some (ls, false)) tot1 w1 = (Ok t1, w1')
    /\ process_file_B search rx (name, Some (sink_get (join "process" name) (sinks w1'), false))
         tot2 w2 = (Ok t2, w2')
    /\ sink_get (join "process" name) (sinks w2') = sink_get (join "process" name) (sinks w1')
    /\ removed_blocks search rx (sink_get (join "process" name) (sinks w1')) = [].
Proof.
  intros Hw1 Hw2.
  destruct tot1 as [[[[a b] c] d] e], tot2 as [[[[a' b'] c'] d'] e'].
  destruct (process_file_B_outputs search rx name ls a b c d e w1 Hw1) as (v1 & E1 & S1 & _).
  destruct (process_file_B_outputs search rx name (sink_get (join "process" name) (sinks v1))
              a' b' c' d' e' w2 Hw2) as (v2 & E2 & S2 & _).
  do 4 eexists. split; [exact E1|]. split; [exact E2|]. rewrite S2, S1. split.
  - rewrite kept_blocks_idem. reflexivity.
  - clear E1 E2 S1 S2. unfold removed_blocks, kept_blocks.
    rewrite segment_of_well_formed by apply filter_well_formed, segment_well_formed.
    induction (segment ls) as [|x bs IH]; [reflexivity|]. simpl.
    destruct (classify false (scan_B search rx) x) eqn:E; simpl; rewrite ?E; auto.
Qed.

(** A log file that cannot be opened leaves every output file as it was in
    both scripts; in particular RemoveLines does not truncate the output
    [process/<name>] of an earlier run. *)
Theorem unopenable_file_keeps_outputs (search : string -> string -> bool) (cfg : config)
  (dir : string) (rx : option string) (name : string) (totA : totalsA) (totB : totalsB)
  (w : world) :
  (exists w', process_file_A search cfg dir (name, None) totA w = (Ok totA, w')
              /\ sinks w' = sinks w)
  /\ (exists w', process_file_B search rx (name, None) totB w = (Ok totB, w')
                 /\ sinks w' = sinks w).
Proof.
  destruct totA as [[[? ?] ?] ?], totB as [[[[? ?] ?] ?] ?].
  split; eexists; split; reflexivity.
Qed.

(** ** Early exits of the two scripts *)

Ltac step := erewrite bind_ok by reflexivity.

Lemma compile_config_ok regex_ok (c : config) w :
  existsb (fun dd : string * dest_cfg =>
             existsb (fun pk : string * bool => negb (regex_ok (fst pk))) (patterns (snd dd))) c
  = false ->
  compile_config regex_ok c w = (Ok c, w).
Proof.
  intros H. unfold compile_config. rewrite (bind_ok _ _ w tt w); [reflexivity|].
  induction c as [|dd c IH]; simpl in *; [reflexivity|].
  apply orb_false_elim in H as [H1 H2].
  rewrite (bind_ok _ _ _ _ _ (compile_patterns_ok regex_ok (fst dd) _ w H1)).
  apply IH. exact H2.
Qed.

Lemma no_file_io_events w evs :
  Forall no_file_event evs -> no_file_io w (mk_world (sinks w) (ro w) (events w ++ evs)).
Proof. intros H. split; [reflexivity|]. exists evs. auto. Qed.

(** When no directory entry is a regular file whose name the file-name regex
    finds, both scripts end with exit status 0 once they have read their
    configuration: no log file is opened and no output file is written. *)
Theorem no_matching_file_exits_cleanly (search : string -> string -> bool)
  (regex_ok : string -> bool) (pat : string) (cs : config_source) (dir : string)
  (pf : list string) (debug_mode confirmed : bool) (listing : list entry) (w : world) :
  config_rejected regex_ok cs = false ->
  regex_ok pat = true ->
  filter (fun e : entry => snd (fst e) && search pat (fst (fst e))) listing = [] ->
  (exists w', extract_log_blocks search regex_ok pat cs dir listing w = (Exc (ExcExit 0), w')
              /\ no_file_io w w')
  /\ (exists w', remove_lines_from_files search regex_ok pat (Some pf) debug_mode confirmed
                   listing w = (Exc (ExcExit 0), w')
                 /\ no_file_io w w').
Proof.
  intros Hc Hp Hf. split.
  - destruct cs as [| |j]; try discriminate. simpl in Hc.
    destruct (validate_config j) as [err|c] eqn:Hv; [discriminate|].
    unfold extract_log_blocks. step.
    erewrite bind_ok by (unfold read_json_config; rewrite Hv; reflexivity).
    destruct (is_nil c); step;
      (erewrite bind_ok by (apply compile_config_ok; exact Hc));
      rewrite Hp; step; step; rewrite Hf;
      (eexists; split; [reflexivity|]);
      simpl; rewrite <- !app_assoc; apply no_file_io_events; simpl; repeat constructor.
  - unfold remove_lines_from_files. step. step. rewrite Hp. step. step. rewrite Hf.
    eexists. split; [reflexivity|].
    simpl; rewrite <- !app_assoc; apply no_file_io_events; simpl; repeat constructor.
Qed.

(** In debug mode, an answer other than [y] or [yes] to the prompt ends
    RemoveLines with exit status 0 before any log file is opened or any
    output file is created or truncated. *)
Theorem remove_cancelled_touches_nothing (search : string -> string -> bool)
  (regex_ok : string -> bool) (pat : string) (pf : list string) (listing : list entry) (w : world) :
  regex_ok pat = true ->
  filter (fun e : entry => snd (fst e) && search pat (fst (fst e))) listing <> [] ->
  exists w', remove_lines_from_files search regex_ok pat (Some pf) true false listing w
             = (Exc (ExcExit 0), w')
             /\ no_file_io w w'.
Proof.
  intros Hp Hf.
  destruct (filter (fun e : entry => snd (fst e) && search pat (fst (fst e))) listing)
    as [|x xs] eqn:E; [contradiction|].
  unfold remove_lines_from_files. step. step. rewrite Hp. step. step. rewrite E.
  eexists. split; [reflexivity|].
  simpl; rewrite <- !app_assoc; apply no_file_io_events; simpl; repeat constructor.
Qed.

(** When the removal patterns, joined as [(p1)|(p2)|...], do not compile,
    RemoveLines stops with that [re.error] (an uncaught exception) once the
    files are listed and the run is confirmed, before any log file is opened
    or any output file is created or truncated. *)
Theorem bad_removal_regex_touches_nothing (search : string -> string -> bool)
  (regex_ok : string -> bool) (pat : string) (pf : list string) (debug_mode confirmed : bool)
  (listing : list entry) (w : world) :
  regex_ok pat = true ->
  filter (fun e : entry => snd (fst e) && search pat (fst (fst e))) listing <> [] ->
  debug_mode && negb confirmed = false ->
  read_patterns pf <> [] ->
  regex_ok (combined_pattern (read_patterns pf)) = false ->
  exists w', remove_lines_from_files search regex_ok pat (Some pf) debug_mode confirmed listing w
             = (Exc (ExcRegex (combined_pattern (read_patterns pf))), w')
             /\ no_file_io w w'.
Proof.
  intros Hp Hf Hd Hn Hr.
  destruct (filter (fun e : entry => snd (fst e) && search pat (fst (fst e))) listing)
    as [|x xs] eqn:E; [contradiction|].
  unfold remove_lines_from_files. step. step. rewrite Hp. step. step. rewrite E.
  cbn [map]. rewrite Hd. step.
  destruct (read_patterns pf) as [|p ps] eqn:Ep; [contradiction|].
  erewrite bind_exc by (unfold build_removal_regex; rewrite Hr; reflexivity).
  eexists. split; [reflexivity|].
  simpl; rewrite <- !app_assoc; apply no_file_io_events; simpl; repeat constructor.
Qed.

(** ** splitLog: reading the configuration *)

Lemma validate_item_encode d pk : validate_item d (encode_pattern pk) = inr pk.
Proof. destruct pk as [p k]. reflexivity. Qed.

Lemma map_sum_validate_items d ps :
  map_sum (validate_item d) (map encode_pattern ps) = inr ps.
Proof.
  induction ps as [|pk ps IH]; [reflexivity|].
  cbn [map map_sum]. rewrite validate_item_encode, IH. reflexivity.
Qed.

(** Round trip: a configuration, written back as JSON with its [keep] and
    [keep_all_blocks] flags explicit, is read back by [read_json_config] as
    itself, without any effect. *)
Theorem config_json_round_trip (c : config) (w : world) :
  validate_config (encode_config c) = inr c
  /\ read_json_config (CfgJson (encode_config c)) w = (Ok c, w).
Proof.
  assert (H : validate_config (encode_config c) = inr c).
  { unfold encode_config, validate_config.
    induction c as [|[d [ps kab]] c IH]; [reflexivity|].
    cbn [map map_sum]. rewrite IH.
    unfold validate_dest, encode_dest. cbn [fst snd patterns keep_all_blocks lookup].
    simpl String.eqb. cbv iota. rewrite map_sum_validate_items. reflexivity. }
  split; [exact H|]. unfold read_json_config. rewrite H. reflexivity.
Qed.

Lemma validate_dest_name kv dd : validate_dest kv = inr dd -> fst dd = fst kv.
Proof.
  destruct kv as [d v]. unfold validate_dest.
  destruct v as [| | | | |o]; try discriminate.
  destruct (lookup "patterns" o) as [[| | | | items|]|]; try discriminate.
  destruct (lookup "keep_all_blocks" o) as [[|b| | | |]|]; try discriminate;
    destruct (map_sum (validate_item d) items); try discriminate;
    intros H; inversion H; reflexivity.
Qed.

(** An accepted configuration keeps every destination of the JSON object,
    with its name, in the order of the file. *)
Theorem config_keeps_destinations (kv : list (string * json)) (c : config) :
  validate_config (JObj kv) = inr c -> map fst c = map fst kv.
Proof.
  simpl. revert c. induction kv as [|x kv IH]; intros c H; simpl in H.
  - inversion H. reflexivity.
  - destruct (validate_dest x) as [e|dd] eqn:E1; [discriminate|].
    destruct (map_sum validate_dest kv) as [e|c'] eqn:E2; [discriminate|].
    inversion H; subst. simpl. rewrite (validate_dest_name _ _ E1), (IH c' eq_refl).
    reflexivity.
Qed.

Lemma validate_item_err d item e : validate_item d item = inl e -> e <> ErrUnexpected.
Proof.
  destruct item as [| | | | |o]; simpl; try (intros H; inversion H; discriminate).
  destruct (lookup "pattern" o) as [[| | |s| |]|]; try (intros H; inversion H; discriminate).
  destruct (lookup "keep" o) as [[|b| | | |]|]; intros H; inversion H; discriminate.
Qed.

Lemma map_sum_validate_item_err d items e :
  map_sum (validate_item d) items = inl e -> e <> ErrUnexpected.
Proof.
  induction items as [|it items IH]; simpl; [discriminate|].
  destruct (validate_item d it) eqn:E1.
  - intros H. inversion H; subst. exact (validate_item_err _ _ _ E1).
  - destruct (map_sum (validate_item d) items); [|discriminate].
    intros H. inversion H; subst. apply IH. reflexivity.
Qed.

Lemma validate_dest_err kv e : validate_dest kv = inl e -> e <> ErrUnexpected.
Proof.
  destruct kv as [d v]. unfold validate_dest.
  destruct v as [| | | | |o]; try (intros H; inversion H; discriminate).
  destruct (lookup "patterns" o) as [[| | | | items|]|]; try (intros H; inversion H; discriminate).
  destruct (lookup "keep_all_blocks" o) as [[|b| | | |]|]; try (intros H; inversion H; discriminate);
    destruct (map_sum (validate_item d) items) eqn:E; try discriminate;
    intros H; inversion H; subst; exact (map_sum_validate_item_err _ _ _ E).
Qed.

(** No partial configuration: when one destination of the JSON object is
    invalid, [read_json_config] rejects the whole file: it prints the one
    message of its [ValueError] handler and the script exits with status 1,
    with no other effect. *)
Theorem one_bad_destination_rejects_all (kv : list (string * json)) (d : string) (v : json)
  (err : cfg_err) (w : world) :
  In (d, v) kv ->
  validate_dest (d, v) = inl err ->
  read_json_config (CfgJson (JObj kv)) w
  = (Exc (ExcExit 1), mk_world (sinks w) (ro w) (events w ++ [EvPrint RepConfigError])).
Proof.
  intros Hin Hbad.
  assert (H : exists e, validate_config (JObj kv) = inl e /\ e <> ErrUnexpected).
  { simpl. induction kv as [|x kv IH]; [destruct Hin|]. simpl.
    destruct Hin as [->|Hin].
    - rewrite Hbad. exists err. split; [reflexivity|]. exact (validate_dest_err _ _ Hbad).
    - destruct (validate_dest x) eqn:Ex.
      + exists c. split; [reflexivity|]. exact (validate_dest_err _ _ Ex).
      + destruct (IH Hin) as [e [-> He]]. eauto. }
  destruct H as [e [He Hne]].
  unfold read_json_config. rewrite He. destruct e; try (exfalso; apply Hne; reflexivity);
    reflexivity.
Qed.

Lemma map_sum_validate_strings d ps :
  map_sum (validate_item d) (map JStr ps) = inr (map (fun p => (p, false)) ps).
Proof. induction ps as [|p ps IH]; [reflexivity|]. simpl. rewrite IH. reflexivity. Qed.

(** A destination object whose patterns are all plain strings and which has
    no [keep_all_blocks], whatever its other keys, reads as those patterns,
    in order, each with [keep = false], and [keep_all_blocks = false]. *)
Theorem string_patterns_default_flags (d : string) (o : list (string * json)) (ps : list string) :
  lookup "patterns" o = Some (JArr (map JStr ps)) ->
  lookup "keep_all_blocks" o = None ->
  validate_dest (d, JObj o) = inr (d, mk_dest_cfg (map (fun p => (p, false)) ps) false).
Proof.
  intros Hp Hk. unfold validate_dest. rewrite Hp, Hk, map_sum_validate_strings. reflexivity.
Qed.

(** ** RemoveLines: reading the pattern file *)

Lemma str_app_nil_r (s : string) : (s ++ "")%string = s.
Proof. induction s as [|c s IH]; simpl; rewrite ?IH; reflexivity. Qed.

Lemma str_app_assoc (a b c : string) : ((a ++ b) ++ c)%string = (a ++ (b ++ c))%string.
Proof. induction a as [|x a IH]; simpl; rewrite ?IH; reflexivity. Qed.

Lemma rev_string_app (a b : string) :
  rev_string (a ++ b) = (rev_string b ++ rev_string a)%string.
Proof.
  induction a as [|c a IH]; simpl.
  - rewrite str_app_nil_r. reflexivity.
  - rewrite IH, str_app_assoc. reflexivity.
Qed.

Lemma rev_string_involutive (s : string) : rev_string (rev_string s) = s.
Proof. induction s as [|c s IH]; simpl; [reflexivity|]. rewrite rev_string_app, IH. reflexivity. Qed.

Lemma lstrip_suffix (s : string) : exists u, s = (u ++ lstrip s)%string.
Proof.
  induction s as [|c s IH]; simpl.
  - exists "". reflexivity.
  - destruct (is_space c).
    + destruct IH as [u Hu]. exists (String c u). simpl. rewrite <- Hu. reflexivity.
    + exists "". reflexivity.
Qed.

Lemma lstrip_head (s : string) :
  lstrip s = "" \/ exists c t, lstrip s = String c t /\ is_space c = false.
Proof.
  induction s as [|c s IH]; simpl; auto.
  destruct (is_space c) eqn:E; auto. right. eauto.
Qed.

Lemma lstrip_idem (s : string) : lstrip (lstrip s) = lstrip s.
Proof.
  destruct (lstrip_head s) as [-> | (c & t & -> & Hc)]; simpl; [reflexivity|].
  rewrite Hc. reflexivity.
Qed.

Lemma lstrip_strip (s : string) : lstrip (strip s) = strip s.
Proof.
  unfold strip.
  destruct (lstrip_suffix (rev_string (lstrip s))) as [u Hu].
  set (t := lstrip (rev_string (lstrip s))) in *.
  assert (Hx : lstrip s = (rev_string t ++ rev_string u)%string).
  { rewrite <- (rev_string_involutive (lstrip s)), Hu, rev_string_app. reflexivity. }
  destruct (rev_string t) as [|c r] eqn:Er; [reflexivity|].
  destruct (lstrip_head s) as [Hl | (c' & t' & Hl & Hc)]; rewrite Hl in Hx.
  - discriminate.
  - simpl in Hx. injection Hx as -> _. simpl. rewrite Hc. reflexivity.
Qed.

Lemma strip_idem (s : string) : strip (strip s) = strip s.
Proof.
  unfold strip at 1. rewrite lstrip_strip. unfold strip.
  rewrite rev_string_involutive, lstrip_idem. reflexivity.
Qed.

Lemma read_patterns_fold ls : forall acc,
  fold_left (fun acc line =>
               let stripped := strip line in
               if negb (String.eqb stripped "") && negb (starts_with_hash stripped)
               then (acc ++ [stripped])%list else acc) ls acc
  = acc ++ filter pattern_kept (map strip ls).
Proof.
  induction ls as [|l ls IH]; intros acc; simpl.
  - rewrite app_nil_r. reflexivity.
  - rewrite IH. unfold pattern_kept.
    destruct (negb (String.eqb (strip l) "") && negb (starts_with_hash (strip l)));
      rewrite <- ?app_assoc; reflexivity.
Qed.

Lemma read_patterns_filter ls : read_patterns ls = filter pattern_kept (map strip ls).
Proof. unfold read_patterns. rewrite read_patterns_fold. reflexivity. Qed.

(** Every pattern read is nonempty, does not begin with [#], and has no
    surrounding whitespace. *)
Theorem read_pattern_shape (ls : list string) (p : string) :
  In p (read_patterns ls) ->
  p <> "" /\ starts_with_hash p = false /\ strip p = p.
Proof.
  rewrite read_patterns_filter. intros H.
  apply filter_In in H as [Hm Hk]. apply in_map_iff in Hm as (l & <- & _).
  unfold pattern_kept in Hk. apply andb_prop in Hk as [H1 H2].
  apply negb_true_iff in H1, H2.
  split; [intros E; rewrite E in H1; discriminate|]. split; [exact H2|].
  apply strip_idem.
Qed.

Lemma lstrip_app (s t : string) :
  lstrip (s ++ t) = match lstrip s with "" => lstrip t | u => (u ++ t)%string end.
Proof.
  induction s as [|c s IH]; simpl; [reflexivity|].
  destruct (is_space c); [exact IH|reflexivity].
Qed.

Lemma strip_snoc_space (s : string) (c : ascii) :
  is_space c = true -> strip (s ++ String c "") = strip s.
Proof.
  intros Hc. unfold strip. rewrite lstrip_app.
  destruct (lstrip s) as [|x u] eqn:E; simpl.
  - rewrite Hc. reflexivity.
  - rewrite rev_string_app. simpl. rewrite Hc. reflexivity.
Qed.

(** Round trip: writing the patterns read from a pattern file back one per
    line, each line ending in a newline, gives a pattern file that is read
    back as the same patterns. *)
Theorem read_patterns_idempotent (ls : list string) :
  read_patterns (map (fun p => (p ++ String "010"%char "")%string) (read_patterns ls))
  = read_patterns ls.
Proof.
  rewrite !read_patterns_filter, map_map.
  rewrite (map_ext_in (fun p => strip (p ++ String "010"%char "")) (fun s => s)).
  - rewrite map_id. apply filter_idem.
  - intros p Hp. rewrite strip_snoc_space by reflexivity.
    apply filter_In in Hp as [Hm _].
    apply in_map_iff in Hm as (l & <- & _). apply strip_idem.
Qed.

(** ** Witnesses of the further properties *)

Lemma split_file_outputs_witness :
  plain_name "app.log" = true /\ plain_names cfg_keep_first
  /\ exists w', process_file_A literal_search cfg_keep_first "processed"
                  ("app.log", Some (sample_log, false)) (0, 0, 0, 0) w_empty
                = (Ok (1, 2, 1, 2), w')
                /\ sink_get (join "processed" "errors.log") (sinks w') = [line_ab; "  at x"]
                /\ sink_get (unmatched_path "processed" "app.log") (sinks w') = sample_log.
Proof.
  assert (Hc : plain_names cfg_keep_first) by (repeat constructor).
  split; [reflexivity|]. split; [exact Hc|].
  destruct (split_file_outputs literal_search cfg_keep_first "processed" "app.log" sample_log
              0 0 0 0 w_empty (fun p => eq_refl) eq_refl Hc) as (w' & E & S).
  exists w'. split; [exact E|]. split.
  - rewrite (S "errors.log" eq_refl). reflexivity.
  - unfold unmatched_path. rewrite (S ("app.log" ++ "_unmatched.log")%string eq_refl). reflexivity.
Defined.

Lemma unmatched_file_contents_witness :
  plain_name "app.log" = true /\ plain_names cfg_keep_second
  /\ exists tot' w', process_file_A literal_search cfg_keep_second "processed"
                       ("app.log", Some (sample_log, false)) (0, 0, 0, 0) w_empty = (Ok tot', w')
                     /\ sink_get (unmatched_path "processed" "app.log") (sinks w') = [line_z].
Proof.
  assert (Hc : plain_names cfg_keep_second) by (repeat constructor).
  split; [reflexivity|]. split; [exact Hc|].
  destruct (unmatched_file_contents literal_search cfg_keep_second "processed" "app.log"
              sample_log (0, 0, 0, 0) w_empty (fun p => eq_refl) eq_refl Hc) as (tot' & w' & E & S).
  { simpl. intros [H|[]]. discriminate. }
  exists tot', w'. split; [exact E|]. rewrite S. reflexivity.
Defined.

Lemma destination_file_contents_witness :
  plain_name "errors.log" = true /\ plain_names cfg_a
  /\ exists tot' w', process_file_A literal_search cfg_a "processed"
                       ("app.log", Some (sample_log, false)) (0, 0, 0, 0) w_empty = (Ok tot', w')
                     /\ sink_get (join "processed" "errors.log") (sinks w') = [line_ab; "  at x"].
Proof.
  assert (Hc : plain_names cfg_a) by (repeat constructor).
  split; [reflexivity|]. split; [exact Hc|].
  destruct (destination_file_contents literal_search cfg_a "processed" "app.log" "errors.log"
              sample_log (0, 0, 0, 0) w_empty (fun p => eq_refl) eq_refl Hc) as (tot' & w' & E & S).
  { discriminate. }
  exists tot', w'. split; [exact E|]. rewrite S. reflexivity.
Defined.

Lemma every_block_written_witness :
  exists r e u w', process_file_A literal_search cfg_a "processed"
                     ("app.log", Some (sample_log, false)) (0, 0, 0, 0) w_empty
                   = (Ok (1, r, e, u), w')
                   /\ r = 2 /\ e <= r /\ u <= r /\ r <= e + u.
Proof.
  exact (every_block_written literal_search cfg_a "processed" "app.log" sample_log w_empty
           (fun p => eq_refl)).
Defined.

Lemma empty_config_copies_to_unmatched_witness :
  exists w', process_file_A literal_search [] "processed" ("app.log", Some (sample_log, false))
               (0, 0, 0, 0) w_empty = (Ok (1, 2, 0, 2), w')
             /\ sink_get "processed/app.log_unmatched.log" (sinks w') = sample_log.
Proof.
  destruct (empty_config_copies_to_unmatched literal_search "processed" "app.log" sample_log
              0 0 0 0 w_empty (fun p => eq_refl)) as (w' & E & S).
  exists w'. split; [exact E|]. exact S.
Defined.

Lemma remove_file_output_witness :
  exists w', process_file_B py_search (Some "(b)") ("app.log", Some (sample_log, false))
               (0, 0, 0, 0, 0) w_empty = (Ok (1, 3, 2, 2, 1), w')
             /\ sink_get "process/app.log" (sinks w') = [line_z].
Proof.
  destruct (remove_file_output py_search (Some "(b)") "app.log" sample_log 0 0 0 0 0 w_empty
              eq_refl) as (w' & E & S).
  exists w'. split; [exact E|]. exact S.
Defined.

Lemma remove_lines_conserved_witness :
  exists pc' tl' tlr' tbp' tbr' w',
    process_file_B py_search (Some "(b)") ("app.log", Some (sample_log, false)) (0, 0, 0, 0, 0) w_empty
    = (Ok (pc', tl', tlr', tbp', tbr'), w')
    /\ 0 <= tlr'
    /\ tl' = 0 + length (sink_get (join "process" "app.log") (sinks w')) + (tlr' - 0).
Proof.
  exact (remove_lines_conserved py_search (Some "(b)") "app.log" sample_log 0 0 0 0 0 w_empty eq_refl).
Defined.

Lemma remove_idempotent_witness :
  exists t1 w1' t2 w2',
    process_file_B py_search (Some "(b)") ("app.log", Some (sample_log, false))
      (0, 0, 0, 0, 0) w_empty = (Ok t1, w1')
    /\ process_file_B py_search (Some "(b)")
         ("app.log", Some (sink_get (join "process" "app.log") (sinks w1'), false))
         (0, 0, 0, 0, 0) w_empty = (Ok t2, w2')
    /\ sink_get (join "process" "app.log") (sinks w2') = sink_get (join "process" "app.log") (sinks w1')
    /\ removed_blocks py_search (Some "(b)") (sink_get (join "process" "app.log") (sinks w1')) = [].
Proof.
  exact (remove_idempotent py_search (Some "(b)") "app.log" sample_log (0, 0, 0, 0, 0)
           (0, 0, 0, 0, 0) w_empty w_empty eq_refl eq_refl).
Defined.

Lemma no_matching_file_exits_cleanly_witness :
  (exists w', extract_log_blocks literal_search all_regex_ok "log" (CfgJson (encode_config cfg_a))
                "processed" [("notes.txt", true, None); ("app.log", false, None)] w_empty
              = (Exc (ExcExit 0), w')
              /\ no_file_io w_empty w')
  /\ (exists w', remove_lines_from_files literal_search all_regex_ok "log" (Some ["b"]) true true
                   [("notes.txt", true, None); ("app.log", false, None)] w_empty
                 = (Exc (ExcExit 0), w')
                 /\ no_file_io w_empty w').
Proof.
  apply (no_matching_file_exits_cleanly literal_search all_regex_ok "log" (CfgJson (encode_config cfg_a))
           "processed" ["b"] true true [("notes.txt", true, None); ("app.log", false, None)] w_empty);
    vm_compute; reflexivity.
Defined.

Lemma remove_cancelled_touches_nothing_witness :
  exists w', remove_lines_from_files literal_search all_regex_ok "log" (Some ["b"]) true false
               [("app.log", true, Some (sample_log, false))] w_empty
             = (Exc (ExcExit 0), w')
             /\ no_file_io w_empty w'.
Proof.
  apply (remove_cancelled_touches_nothing literal_search all_regex_ok "log" ["b"]
           [("app.log", true, Some (sample_log, false))] w_empty).
  - reflexivity.
  - intros H. vm_compute in H. discriminate.
Defined.

Lemma bad_removal_regex_touches_nothing_witness :
  exists w', remove_lines_from_files literal_search parens_balanced "log" (Some ["# comment"; "fail("])
               false false [("app.log", true, Some (sample_log, false))] w_empty
             = (Exc (ExcRegex "(fail()"), w')
             /\ no_file_io w_empty w'.
Proof.
  apply (bad_removal_regex_touches_nothing literal_search parens_balanced "log" ["# comment"; "fail("]
           false false [("app.log", true, Some (sample_log, false))] w_empty).
  - reflexivity.
  - intros H. vm_compute in H. discriminate.
  - reflexivity.
  - intros H. vm_compute in H. discriminate.
  - vm_compute. reflexivity.
Defined.

Lemma config_keeps_destinations_witness :
  map fst [("errors.log", mk_dest_cfg [("a", false)] false); ("net.log", mk_dest_cfg [] true)]
  = map fst [("errors.log", JObj [("patterns", JArr [JStr "a"])]);
             ("net.log", JObj [("patterns", JArr []); ("keep_all_blocks", JBool true)])].
Proof.
  apply config_keeps_destinations. vm_compute. reflexivity.
Defined.

Lemma one_bad_destination_rejects_all_witness :
  read_json_config (CfgJson (JObj [("errors.log", JObj [("patterns", JArr [JStr "a"])]);
                                   ("net.log", JStr "x")])) w_empty
  = (Exc (ExcExit 1), mk_world [] [] [EvPrint RepConfigError]).
Proof.
  apply (one_bad_destination_rejects_all
           [("errors.log", JObj [("patterns", JArr [JStr "a"])]); ("net.log", JStr "x")]
           "net.log" (JStr "x") (ErrNotObject "net.log") w_empty).
  - right. left. reflexivity.
  - reflexivity.
Defined.

Lemma string_patterns_default_flags_witness :
  validate_dest ("errors.log", JObj [("comment", JStr "disk errors");
                                     ("patterns", JArr [JStr "disk"; JStr "I/O"])])
  = inr ("errors.log", mk_dest_cfg [("disk", false); ("I/O", false)] false).
Proof.
  apply (string_patterns_default_flags "errors.log"
           [("comment", JStr "disk errors"); ("patterns", JArr [JStr "disk"; JStr "I/O"])]
           ["disk"; "I/O"]); reflexivity.
Defined.

Lemma read_pattern_shape_witness :
  "error|warning" <> "" /\ starts_with_hash "error|warning" = false
  /\ strip "error|warning" = "error|warning".
Proof.
  apply (read_pattern_shape [("  error|warning" ++ String "010"%char "")%string; "# comment"]
           "error|warning").
  vm_compute. left. reflexivity.
Defined.
